(** * NCERT voice tutor: the retrieval core, embedded and verified

    A shallow embedding of the RAG core of the backend
    ([backend/rag/pdf_loader.py], [chunker.py], [vector_store.py],
    [retriever.py]) together with the properties its specification states.

    Conventions of the embedding.
    - A Python [str] is a [string] (code points below 256).
    - A Python [int] is a [Z]; a Python or NumPy float is a rational [Q]:
      only the order of distances matters to the code below, rounding to
      [float32] is not modelled.
    - A Python [dict] with string keys is a [gmap string value].
    - The module globals of [vector_store.py] and the two files they are
      persisted to form the record [store]; functions that read or write
      them live in the monad [M], which also carries raised exceptions. *)

From Stdlib Require Import Ascii QArith Qround Qabs Lqa.
From stdpp Require Import gmap strings list sorting.

Local Open Scope list_scope.
Local Open Scope Z_scope.

(** ** Python values *)

Inductive value : Type :=
  | VNone
  | VInt (z : Z)
  | VFloat (q : Q)
  | VStr (s : string).

#[global] Instance Q_eq_dec : EqDecision Q.
Proof. solve_decision. Defined.

#[global] Instance value_eq_dec : EqDecision value.
Proof. solve_decision. Defined.

#[global] Instance value_countable : Countable value.
Proof.
  refine (inj_countable'
    (fun v => match v with
              | VNone => inl ()
              | VInt z => inr (inl z)
              | VFloat q => inr (inr (inl (Qnum q, Qden q)))
              | VStr s => inr (inr (inr s))
              end)
    (fun c => match c with
              | inl _ => VNone
              | inr (inl z) => VInt z
              | inr (inr (inl (n, p))) => VFloat (Qmake n p)
              | inr (inr (inr s)) => VStr s
              end) _).
  intros [ | z | [n p] | s]; reflexivity.
Defined.

(** A metadata entry, a page record, a retrieved passage: all are dicts. *)
Abbreviation dict := (gmap string value).

(** ** Exceptions and the store monad *)

Inductive exn : Type :=
  | AssertionError
  | IndexError
  | HTTPException (status_code : Z).

Inductive result (A : Type) : Type :=
  | Ok (a : A)
  | Raise (e : exn).
Arguments Ok {A} a.
Arguments Raise {A} e.

(** A row-major two-dimensional NumPy array of shape
    [(length data, shape1)]. *)
Record ndarray : Type := mk_ndarray {
  shape1 : nat;
  data : list (list Q)
}.

Definition shape0 (x : ndarray) : nat := length (data x).

(** ** The FAISS flat L2 index (external library)

    [faiss.IndexFlatL2] as the code uses it: a dimension fixed at
    construction, the stored vectors in insertion order, [add] and [search]
    asserting the width of their argument, and an exact scan returning for
    every query row the [k] nearest stored vectors by squared Euclidean
    distance, nearest first, padded with label [-1] when fewer than [k]
    vectors are stored. Equal distances are kept in insertion order here;
    nothing below depends on it. *)
Module Faiss.

Record IndexFlatL2 : Type := mk_index {
  d : nat;
  xb : list (list Q)
}.

Definition new (dim : nat) : IndexFlatL2 := {| d := dim; xb := [] |}.

Definition ntotal (ix : IndexFlatL2) : nat := length (xb ix).

Definition add (ix : IndexFlatL2) (x : ndarray) : result IndexFlatL2 :=
  if decide (shape1 x = d ix)
  then Ok {| d := d ix; xb := xb ix ++ data x |}
  else Raise AssertionError.

Fixpoint l2sqr (a b : list Q) : Q :=
  match a, b with
  | x :: a', y :: b' => ((x - y) * (x - y) + l2sqr a' b')%Q
  | _, _ => 0%Q
  end.

(** Distance reported in the padding slots. *)
Definition FLT_MAX : Q := 340282346638528859811704183484516925440 # 1.

Fixpoint insert_hit (h : Q * Z) (hs : list (Q * Z)) : list (Q * Z) :=
  match hs with
  | [] => [h]
  | h' :: tl =>
      if Qle_bool (fst h') (fst h) then h' :: insert_hit h tl
      else h :: h' :: tl
  end.

Definition sort_hits (hs : list (Q * Z)) : list (Q * Z) :=
  foldr insert_hit [] hs.

Definition scan (q : list Q) (vs : list (list Q)) : list (Q * Z) :=
  imap (fun i v => (l2sqr q v, Z.of_nat i)) vs.

Definition knn (vs : list (list Q)) (k : nat) (q : list Q) : list (Q * Z) :=
  let best := take k (sort_hits (scan q vs)) in
  best ++ replicate (k - length best) (FLT_MAX, -1).

(** Returns the pair [(D, I)] of distance and label matrices. *)
Definition search (ix : IndexFlatL2) (x : ndarray) (k : Z)
  : result (list (list Q) * list (list Z)) :=
  if decide (shape1 x = d ix) then
    if decide (0 < k) then
      let hits := map (knn (xb ix) (Z.to_nat k)) (data x) in
      Ok (map (map fst) hits, map (map snd) hits)
    else Raise AssertionError
  else Raise AssertionError.

End Faiss.

(** ** The vector store: module state and persisted files

    [_index] and [_metadata] are the two module globals; [INDEX_PATH] and
    [METADATA_PATH] hold what the file at that path contains, [None] when
    the file does not exist. *)

Record store : Type := mk_store {
  _index : option Faiss.IndexFlatL2;
  _metadata : list dict;
  INDEX_PATH : option Faiss.IndexFlatL2;
  METADATA_PATH : option (list dict)
}.

(** The state at process start on a machine with no persisted index. *)
Definition fresh : store :=
  {| _index := None; _metadata := []; INDEX_PATH := None; METADATA_PATH := None |}.

Definition M (A : Type) : Type := store -> result A * store.

#[global] Instance M_ret : MRet M := fun A a st => (Ok a, st).

#[global] Instance M_bind : MBind M := fun A B f m st =>
  match m st with
  | (Ok a, st') => f a st'
  | (Raise e, st') => (Raise e, st')
  end.

Definition raise {A} (e : exn) : M A := fun st => (Raise e, st).
Definition get_store : M store := fun st => (Ok st, st).
Definition put_store (st : store) : M unit := fun _ => (Ok (), st).
Definition lift {A} (r : result A) : M A := fun st => (r, st).

Definition set_index (ix : option Faiss.IndexFlatL2) : M unit :=
  st ← get_store;
  put_store {| _index := ix; _metadata := _metadata st;
               INDEX_PATH := INDEX_PATH st;
               METADATA_PATH := METADATA_PATH st |}.

Definition set_metadata (md : list dict) : M unit :=
  st ← get_store;
  put_store {| _index := _index st; _metadata := md;
               INDEX_PATH := INDEX_PATH st;
               METADATA_PATH := METADATA_PATH st |}.

Definition _ensure_loaded : M unit :=
  st ← get_store;
  match _index st with
  | None =>
      match INDEX_PATH st, METADATA_PATH st with
      | Some ix, Some md => set_index (Some ix);; set_metadata md
      | _, _ => mret ()
      end
  | Some _ => mret ()
  end.

Definition _save : M unit :=
  st ← get_store;
  put_store {| _index := _index st; _metadata := _metadata st;
               INDEX_PATH := match _index st with
                             | Some ix => Some ix
                             | None => INDEX_PATH st
                             end;
               METADATA_PATH := Some (_metadata st) |}.

Definition add_to_index (embeddings : ndarray) (chunks_metadata : list dict)
  : M unit :=
  _ensure_loaded;;
  let dim := shape1 embeddings in
  st ← get_store;
  ix ← match _index st with
       | None =>
           set_index (Some (Faiss.new dim));; set_metadata [];;
           mret (Faiss.new dim)
       | Some ix => mret ix
       end;
  ix' ← lift (Faiss.add ix embeddings);
  set_index (Some ix');;
  st ← get_store;
  set_metadata (_metadata st ++ chunks_metadata);;
  _save.

(** Python list indexing with an [int], negative indices counting from the
    end. *)
Definition py_getitem {A} (l : list A) (i : Z) : result A :=
  let n := Z.of_nat (length l) in
  let j := if i <? 0 then i + n else i in
  if (0 <=? j) && (j <? n) then
    match l !! Z.to_nat j with
    | Some a => Ok a
    | None => Raise IndexError
    end
  else Raise IndexError.

(** The loop of [search] over [zip(distances[0], indices[0])]. *)
Fixpoint search_loop (md : list dict) (hits : list (Q * Z))
    (results : list (dict * Q)) : result (list (dict * Q)) :=
  match hits with
  | [] => Ok results
  | (dist, idx) :: rest =>
      if idx =? -1 then search_loop md rest results
      else if idx <? Z.of_nat (length md) then
        match py_getitem md idx with
        | Ok m => search_loop md rest (results ++ [(m, dist)])
        | Raise e => Raise e
        end
      else search_loop md rest results
  end.

Definition bind_result {A B} (r : result A) (f : A -> result B) : result B :=
  match r with Ok a => f a | Raise e => Raise e end.

Definition search (query_embedding : ndarray) (top_k : Z)
  : M (list (dict * Q)) :=
  _ensure_loaded;;
  st ← get_store;
  match _index st with
  | None => mret []
  | Some ix =>
      if decide (Faiss.ntotal ix = 0%nat) then mret []
      else
        lift (bind_result (Faiss.search ix query_embedding top_k) (fun DI =>
              bind_result (py_getitem (fst DI) 0) (fun D0 =>
              bind_result (py_getitem (snd DI) 0) (fun I0 =>
              search_loop (_metadata st) (zip D0 I0) []))))
  end.

Definition get_index_size : M nat :=
  _ensure_loaded;;
  st ← get_store;
  mret (match _index st with Some ix => Faiss.ntotal ix | None => 0%nat end).

(** [list(set(...))]: the order of a Python set is unspecified, the result
    is kept as the set. *)
Definition get_indexed_pdfs : M (gset value) :=
  _ensure_loaded;;
  st ← get_store;
  match _metadata st with
  | [] => mret ∅
  | _ => mret (list_to_set
                 (map (fun m : dict => default (VStr "") (m !! "pdf_name"))
                      (_metadata st)))
  end.

(** Both globals are reset and both files removed when they exist. *)
Definition clear_index : M unit :=
  put_store {| _index := None; _metadata := [];
               INDEX_PATH := None; METADATA_PATH := None |}.

(** Running a computation: its outcome and the store it leaves. *)
Definition outcome {A} (m : M A) (st : store) : result A := fst (m st).
Definition after {A} (m : M A) (st : store) : store := snd (m st).

(** ** The retriever *)

Definition RELEVANCE_THRESHOLD : Q := 12 # 10.
Definition DEFAULT_TOP_K : Z := 5.

(** [round(x, 4)]: to the nearest multiple of 1/10000, ties to even. *)
Definition py_round4 (x : Q) : Q :=
  let y := (x * (10000 # 1))%Q in
  let f := Qfloor y in
  let r := (y - (f # 1))%Q in
  let n := match (r ?= 1 # 2)%Q with
           | Lt => f
           | Gt => f + 1
           | Eq => if Z.even f then f else f + 1
           end in
  n # 10000.

(** Truth value of an [Optional[str]]. *)
Definition truthy (s : option string) : bool :=
  match s with
  | None => false
  | Some s => negb (String.eqb s "")
  end.

(** Python [!=] between the result of [dict.get] and a [str]. *)
Definition py_ne_str (v : option value) (s : option string) : bool :=
  match v, s with
  | Some (VStr a), Some b => negb (String.eqb a b)
  | _, _ => true
  end.

Fixpoint retrieve_loop (top_k : Z) (threshold : Q) (pdf_filter : option string)
    (raw_results : list (dict * Q)) (filtered : list dict) : list dict :=
  match raw_results with
  | [] => filtered
  | (metadata, distance) :: rest =>
      if negb (Qle_bool distance threshold) then
        retrieve_loop top_k threshold pdf_filter rest filtered
      else if truthy pdf_filter
                && py_ne_str (metadata !! "pdf_name") pdf_filter then
        retrieve_loop top_k threshold pdf_filter rest filtered
      else
        let filtered' :=
          filtered ++ [<["score" := VFloat (py_round4 distance)]> metadata] in
        if Z.of_nat (length filtered') >=? top_k then filtered'
        else retrieve_loop top_k threshold pdf_filter rest filtered'
  end.

Definition fetch_k (top_k : Z) (pdf_filter : option string) : Z :=
  if truthy pdf_filter then top_k * 3 else top_k.

Section Retriever.

(** The sentence-transformer model: a collaborator. *)
Variable generate_single_embedding : string -> ndarray.

Definition retrieve (query : string) (top_k : Z) (threshold : Q)
    (pdf_filter : option string) : M (list dict) :=
  let query_embedding := generate_single_embedding query in
  raw_results ← search query_embedding (fetch_k top_k pdf_filter);
  mret (retrieve_loop top_k threshold pdf_filter raw_results []).

End Retriever.

(** ** The text extractor *)

(** [str.isspace] on the code points below 256: tab to carriage return,
    the four separators 28 to 31, space, NEL and the no-break space. *)
Definition is_space (c : ascii) : bool :=
  let n := N_of_ascii c in
  ((9 <=? n) && (n <=? 13) || (28 <=? n) && (n <=? 32)
   || (n =? 133) || (n =? 160))%N.

Fixpoint lstrip (s : string) : string :=
  match s with
  | EmptyString => EmptyString
  | String c s' => if is_space c then lstrip s' else s
  end.

Fixpoint rstrip (s : string) : string :=
  match s with
  | EmptyString => EmptyString
  | String c s' =>
      match rstrip s' with
      | EmptyString => if is_space c then EmptyString else String c EmptyString
      | r => String c r
      end
  end.

(** [str.strip()] *)
Definition strip (s : string) : string := rstrip (lstrip s).

Definition newline : ascii := ascii_of_N 10.

(** [str.split("\n")] *)
Fixpoint split_lines (s : string) : list string :=
  match s with
  | EmptyString => [EmptyString]
  | String c s' =>
      if Ascii.eqb c newline then EmptyString :: split_lines s'
      else match split_lines s' with
           | l :: ls => String c l :: ls
           | [] => [String c EmptyString]
           end
  end.

(** [sep.join(parts)] *)
Fixpoint join (sep : string) (parts : list string) : string :=
  match parts with
  | [] => EmptyString
  | [x] => x
  | x :: tl => x +:+ sep +:+ join sep tl
  end.

Definition nonempty (s : string) : bool := negb (String.eqb s "").

Fixpoint clean_loop (lines cleaned_lines : list string) : list string :=
  match lines with
  | [] => cleaned_lines
  | line :: rest =>
      let line := strip line in
      if nonempty line then clean_loop rest (cleaned_lines ++ [line])
      else clean_loop rest cleaned_lines
  end.

Definition _clean_text (text : string) : string :=
  join " " (clean_loop (split_lines text) []).

(** One element of [pages_data]. *)
Record page_data : Type := mk_page {
  page : Z;
  text : string;
  pdf_name : string
}.

(** The loop of [extract_text_from_pdf] over [enumerate(pdf.pages)];
    [page.extract_text()] may be [None]. *)
Fixpoint extract_loop (pdf_name : string) (i : Z) (pages : list (option string))
    (pages_data : list page_data) : list page_data :=
  match pages with
  | [] => pages_data
  | extracted :: rest =>
      match extracted with
      | Some text =>
          if nonempty text && nonempty (strip text) then
            let cleaned := _clean_text text in
            extract_loop pdf_name (i + 1) rest
              (pages_data ++ [{| page := i + 1; text := cleaned;
                                 pdf_name := pdf_name |}])
          else extract_loop pdf_name (i + 1) rest pages_data
      | None => extract_loop pdf_name (i + 1) rest pages_data
      end
  end.

Definition extract_text_from_pdf (pdf_name : string)
    (pages : list (option string)) : list page_data :=
  extract_loop pdf_name 0 pages [].

(** *** The cleaning rule in the words of the specification

    Collapse internal whitespace within each line, drop blank lines, join
    the surviving lines with single spaces. *)

(** The words of a line: its maximal runs of non-whitespace characters.
    [cur] is the word being read. *)
Fixpoint words_from (cur : string) (s : string) : list string :=
  match s with
  | EmptyString => if nonempty cur then [cur] else []
  | String c s' =>
      if is_space c then
        if nonempty cur then cur :: words_from EmptyString s'
        else words_from EmptyString s'
      else words_from (cur +:+ String c EmptyString) s'
  end.

Definition collapse_whitespace (line : string) : string :=
  join " " (words_from EmptyString line).

Definition clean_text_spec (text : string) : string :=
  join " " (filter (fun l => nonempty l = true)
                   (map collapse_whitespace (split_lines text))).

(** [str.lower()] on the code points below 256. *)
Definition lower_char (c : ascii) : ascii :=
  let n := N_of_ascii c in
  if ((65 <=? n) && (n <=? 90)
      || (192 <=? n) && (n <=? 222) && negb (n =? 215))%N
  then ascii_of_N (n + 32) else c.

Fixpoint lower (s : string) : string :=
  match s with
  | EmptyString => EmptyString
  | String c s' => String (lower_char c) (lower s')
  end.

(** [s.endswith(suffix)] *)
Fixpoint endswith (s suffix : string) : bool :=
  String.eqb s suffix
  || match s with
     | EmptyString => false
     | String _ s' => endswith s' suffix
     end.

(** ** The chunker *)

Definition CHUNK_SIZE : Z := 800.
Definition CHUNK_OVERLAP : Z := 150.

Definition chunk_dict (chunk_text : string) (page_num : Z) (id : Z)
    (name : string) : dict :=
  {[ "text" := VStr chunk_text; "page" := VInt page_num;
     "chunk_id" := VInt id; "pdf_name" := VStr name ]}.

(** The inner loop: one dict per piece, the counter advancing by one. *)
Fixpoint append_chunks (chunks : list string) (page_num : Z) (name : string)
    (all_chunks : list dict) (global_chunk_id : Z) : list dict * Z :=
  match chunks with
  | [] => (all_chunks, global_chunk_id)
  | chunk_text :: rest =>
      append_chunks rest page_num name
        (all_chunks ++ [chunk_dict chunk_text page_num global_chunk_id name])
        (global_chunk_id + 1)
  end.

Section Chunker.

(** [RecursiveCharacterTextSplitter(chunk_size=CHUNK_SIZE,
    chunk_overlap=CHUNK_OVERLAP, ...).split_text]: a collaborator. *)
Variable split_text : string -> list string.

Fixpoint chunk_loop (pages_data : list page_data) (all_chunks : list dict)
    (global_chunk_id : Z) : list dict :=
  match pages_data with
  | [] => all_chunks
  | pd :: rest =>
      if nonempty (strip (text pd)) then
        let chunks := split_text (text pd) in
        let '(all_chunks', id') :=
          append_chunks chunks (page pd) (pdf_name pd)
                        all_chunks global_chunk_id in
        chunk_loop rest all_chunks' id'
      else chunk_loop rest all_chunks global_chunk_id
  end.

Definition _chunk_pages_simple (pages_data : list page_data) : list dict :=
  chunk_loop pages_data [] 0.

(** *** Ingestion ([upload_pdf] in [main.py], rule-based chunking)

    [pages] is what [pdfplumber] reads from the uploaded file; the counts
    of the JSON response are returned as a triple; an exception other than
    [HTTPException] is turned into status 500. *)

(** The embedding model applied to a batch of texts: a collaborator. *)
Variable generate_embeddings : list string -> ndarray.

Definition chunk_text_of (c : dict) : string :=
  match c !! "text" with
  | Some (VStr s) => s
  | _ => EmptyString
  end.

Definition upload_pdf (filename : string) (pages : list (option string))
  : M (nat * nat * nat) :=
  if negb (endswith (lower filename) ".pdf") then raise (HTTPException 400)
  else
    let pages_data := extract_text_from_pdf filename pages in
    match pages_data with
    | [] => raise (HTTPException 400)
    | _ =>
        let chunks := _chunk_pages_simple pages_data in
        let texts := map chunk_text_of chunks in
        let embeddings := generate_embeddings texts in
        fun st =>
          match (add_to_index embeddings chunks;; get_index_size) st with
          | (Ok total, st') =>
              (Ok (length pages_data, length chunks, total), st')
          | (Raise _, st') => (Raise (HTTPException 500), st')
          end
    end.

End Chunker.

(** ** The agentic chunker ([agentic_chunker.py]) *)

Definition MAX_CHUNK_SIZE : Z := 1200.

(** The paragraph separator, two newlines. *)
Definition blank_line : string := String newline (String newline EmptyString).

Definition line_break : string := String newline EmptyString.

(** [str.isupper] on the code points below 256: no lowercase letter and at
    least one uppercase letter. *)
Definition is_upper_char (c : ascii) : bool :=
  let n := N_of_ascii c in
  ((65 <=? n) && (n <=? 90) || (192 <=? n) && (n <=? 214)
   || (216 <=? n) && (n <=? 222))%N.

Definition is_lower_char (c : ascii) : bool :=
  let n := N_of_ascii c in
  ((97 <=? n) && (n <=? 122) || (n =? 170) || (n =? 181) || (n =? 186)
   || (223 <=? n) && (n <=? 246) || (248 <=? n) && (n <=? 255))%N.

Fixpoint isupper_from (cased : bool) (s : string) : bool :=
  match s with
  | EmptyString => cased
  | String c s' =>
      if is_lower_char c then false
      else isupper_from (cased || is_upper_char c) s'
  end.

Definition isupper (s : string) : bool := isupper_from false s.

(** [s.startswith(prefix)] *)
Fixpoint startswith (s prefix : string) : bool :=
  match prefix, s with
  | EmptyString, _ => true
  | String p prefix', String c s' => Ascii.eqb c p && startswith s' prefix'
  | String _ _, EmptyString => false
  end.

Definition heading_prefixes : list string :=
  ["Chapter"; "Section"; "CHAPTER"; "SECTION"].

(** The test of [detect_headings] on a stripped line. *)
Definition looks_like_heading (stripped : string) : bool :=
  isupper stripped
  || (Z.of_nat (String.length stripped) <? 60) && negb (endswith stripped ".")
  || existsb (startswith stripped) heading_prefixes.

(** The three places where [detect_headings] closes the running paragraph:
    its lines joined by newlines and stripped, kept when not empty. *)
Definition close_paragraph (paragraphs : list (string * bool))
    (current_para : list string) : list (string * bool) :=
  match current_para with
  | [] => paragraphs
  | _ =>
      let para_text := strip (join line_break current_para) in
      if nonempty para_text then paragraphs ++ [(para_text, false)]
      else paragraphs
  end.

(** The loop of [detect_headings]; an entry is [(text, is_heading)]. *)
Fixpoint heading_loop (lines : list string) (paragraphs : list (string * bool))
    (current_para : list string) : list (string * bool) * list string :=
  match lines with
  | [] => (paragraphs, current_para)
  | line :: rest =>
      let stripped := strip line in
      if negb (nonempty stripped) then
        heading_loop rest (close_paragraph paragraphs current_para) []
      else
        let is_heading := looks_like_heading stripped in
        if is_heading && negb (bool_decide (current_para = [])) then
          heading_loop rest
            (close_paragraph paragraphs current_para ++ [(stripped, true)]) []
        else heading_loop rest paragraphs (current_para ++ [line])
  end.

Definition detect_headings (text : string) : list (string * bool) :=
  let '(paragraphs, current_para) := heading_loop (split_lines text) [] [] in
  close_paragraph paragraphs current_para.

Section AgenticChunker.

(** [should_merge_paragraphs]: the answer of the Gemini judge to "should
    these two consecutive paragraphs be merged", [false] when the call
    fails: a collaborator. *)
Variable should_merge_paragraphs : string -> string -> bool.

(** The loop of [merge_related_paragraphs] over [paragraphs[1:]]. *)
Fixpoint merge_loop (max_chunk_size : Z) (paragraphs : list string)
    (merged_chunks : list string) (current_chunk : string)
    : list string * string :=
  match paragraphs with
  | [] => (merged_chunks, current_chunk)
  | next_para :: rest =>
      let potential_merge := current_chunk +:+ blank_line +:+ next_para in
      if Z.of_nat (String.length potential_merge) >? max_chunk_size then
        merge_loop max_chunk_size rest (merged_chunks ++ [current_chunk])
          next_para
      else if should_merge_paragraphs current_chunk next_para then
        merge_loop max_chunk_size rest merged_chunks potential_merge
      else
        merge_loop max_chunk_size rest (merged_chunks ++ [current_chunk])
          next_para
  end.

Definition merge_related_paragraphs (paragraphs : list string)
    (max_chunk_size : Z) : list string :=
  match paragraphs with
  | [] => []
  | [_] => paragraphs
  | first :: rest =>
      let '(merged_chunks, current_chunk) :=
        merge_loop max_chunk_size rest [] first in
      if nonempty current_chunk then merged_chunks ++ [current_chunk]
      else merged_chunks
  end.

(** The texts handed to the merger: headings marked with [## ]. *)
Definition para_texts (structured_paras : list (string * bool)) : list string :=
  (fun para : string * bool =>
     if para.2 then "## " +:+ para.1 else para.1) <$> structured_paras.

(** The loop of [_chunk_pages_agentic]. The import of [agentic_chunker] is
    taken to succeed, and [merge_related_paragraphs] raises nothing (the
    judge catches its own failures), so neither fallback is reached. *)
Fixpoint agentic_loop (pages_data : list page_data) (all_chunks : list dict)
    (global_chunk_id : Z) : list dict :=
  match pages_data with
  | [] => all_chunks
  | pd :: rest =>
      if nonempty (strip (text pd)) then
        let texts := para_texts (detect_headings (text pd)) in
        match texts with
        | [] => agentic_loop rest all_chunks global_chunk_id
        | _ =>
            let merged_chunks_texts :=
              merge_related_paragraphs texts MAX_CHUNK_SIZE in
            let '(all_chunks', id') :=
              append_chunks merged_chunks_texts (page pd) (pdf_name pd)
                            all_chunks global_chunk_id in
            agentic_loop rest all_chunks' id'
        end
      else agentic_loop rest all_chunks global_chunk_id
  end.

Definition _chunk_pages_agentic (pages_data : list page_data) : list dict :=
  agentic_loop pages_data [] 0.

(** [chunk_pages]: the mode is chosen by [ENABLE_AGENTIC_CHUNKING]. *)
Definition chunk_pages (ENABLE_AGENTIC_CHUNKING : bool)
    (split_text : string -> list string) (pages_data : list page_data)
    : list dict :=
  if ENABLE_AGENTIC_CHUNKING then _chunk_pages_agentic pages_data
  else _chunk_pages_simple split_text pages_data.

End AgenticChunker.

(** ** Observers

    Pure readings of the store used to state the properties. *)

(** The store once [_ensure_loaded] has run: both files present are read,
    anything else leaves the store as it is. *)
Definition loaded (st : store) : store :=
  match _index st, INDEX_PATH st, METADATA_PATH st with
  | None, Some ix, Some md =>
      {| _index := Some ix; _metadata := md;
         INDEX_PATH := Some ix; METADATA_PATH := Some md |}
  | _, _, _ => st
  end.

(** What every operation sees as the metadata log. *)
Definition metadata_log : M (list dict) :=
  _ensure_loaded;; st ← get_store; mret (_metadata st).

(** The width the index was created with, when there is an index. *)
Definition index_width : M (option nat) :=
  _ensure_loaded;; st ← get_store; mret (Faiss.d <$> _index st).

Definition index_size_of (st : store) : nat :=
  match _index st with Some ix => Faiss.ntotal ix | None => 0%nat end.

(** A sequence of [add_to_index] calls; a call that raises leaves the
    store it had reached and the next call goes on from there, as the
    request handlers do. *)
Definition run_adds (adds : list (ndarray * list dict)) (st : store) : store :=
  foldl (fun st a => after (add_to_index a.1 a.2) st) st adds.

(** A label FAISS may report for an index of [n] vectors. *)
Definition label_ok (n : nat) (l : Z) : Prop :=
  l = -1 \/ 0 <= l < Z.of_nat n.

(** A search result that is the log entry at a position below the vector
    count. *)
Definition entry_in_range (st : store) (r : dict * Q) : Prop :=
  exists i : nat,
    (i < index_size_of st)%nat /\ _metadata st !! i = Some r.1.

(** [size()] and the length of the metadata log agree. *)
Definition size_matches_log (st : store) : Prop :=
  exists (n : nat) (log : list dict),
    outcome get_index_size st = Ok n /\
    outcome metadata_log st = Ok log /\
    n = length log.

(** An [add] call offering as many metadata entries as vectors. *)
Definition balanced (a : ndarray * list dict) : Prop :=
  shape0 a.1 = length a.2.

(** Sample data for the concrete scenarios. *)
Definition vec1 (x : Z) : list Q := [x # 1].
Definition sample_chunk (name : string) (id : Z) : dict :=
  chunk_dict "photosynthesis" 1 id name.

(** A raw result that clears the threshold and the source filter. *)
Definition passes (threshold : Q) (pdf_filter : option string)
    (r : dict * Q) : bool :=
  Qle_bool r.2 threshold
  && negb (truthy pdf_filter && py_ne_str (r.1 !! "pdf_name") pdf_filter).

(** The passage built from a raw result. *)
Definition passage (r : dict * Q) : dict :=
  <["score" := VFloat (py_round4 r.2)]> r.1.

(** How many more passages the loop of [retrieve] takes when it already
    holds [have]: the test for [top_k] comes after an append, so at least
    one. *)
Definition quota (top_k : Z) (have : nat) : nat :=
  Z.to_nat (Z.max 1 (top_k - Z.of_nat have)).

(** The index of the concrete retrieval scenarios, in one dimension: a
    passage of [a.pdf] stored at 0.9 and a passage of [b.pdf] stored at 1.5,
    the query at the origin (squared distances 0.81 and 2.25). *)
Definition origin_query (_ : string) : ndarray := mk_ndarray 1 [[0 # 1]%Q].
Definition two_passages : store :=
  run_adds [(mk_ndarray 1 [[9 # 10]%Q; [15 # 10]%Q],
             [sample_chunk "a.pdf" 0; sample_chunk "b.pdf" 1])] fresh.

(** Only whitespace characters (or none at all). *)
Fixpoint all_space (s : string) : bool :=
  match s with
  | EmptyString => true
  | String c s' => is_space c && all_space s'
  end.

(** The text contains a non-whitespace character. *)
Definition has_text (s : string) : bool := negb (all_space s).

Definition first_char (s : string) : option ascii :=
  match s with
  | EmptyString => None
  | String c _ => Some c
  end.

Fixpoint last_char (s : string) : option ascii :=
  match s with
  | EmptyString => None
  | String c EmptyString => Some c
  | String _ s' => last_char s'
  end.

(** Neither the first nor the last character is whitespace. *)
Definition trimmed (s : string) : Prop :=
  (forall c, first_char s = Some c -> is_space c = false) /\
  (forall c, last_char s = Some c -> is_space c = false).

(** The Page the extractor owes for the physical page at position [i]
    (from 0), if any: lines cut at newlines, each stripped, blank ones
    dropped, the rest joined by single spaces. *)
Definition page_of (name : string) (i : nat) (extracted : option string)
    : option page_data :=
  match extracted with
  | Some raw =>
      if has_text raw then
        Some {| page := Z.of_nat i + 1;
                text := join " " (filter (fun l => nonempty l = true)
                                         (strip <$> split_lines raw));
                pdf_name := name |}
      else None
  | None => None
  end.

(** The [chunk_id] fields of a list of chunks, and the fields of a list
    numbered from 0. *)
Definition chunk_ids (chunks : list dict) : list (option value) :=
  (fun c : dict => c !! "chunk_id") <$> chunks.

Definition ids_from_zero (n : nat) : list (option value) :=
  (fun i : nat => Some (VInt (Z.of_nat i))) <$> seq 0 n.

(** The invariant of both loops: the chunks so far are numbered from zero
    and the counter is their number. *)
Definition numbered (all_chunks : list dict) (global_chunk_id : Z) : Prop :=
  chunk_ids all_chunks = ids_from_zero (length all_chunks) /\
  global_chunk_id = Z.of_nat (length all_chunks).

(** Stand-ins for the two collaborators in the concrete ingestion scenario:
    a page shorter than [CHUNK_SIZE] comes back from the splitter as one
    piece; every text is embedded in one dimension. *)
Definition whole_page (page_text : string) : list string := [page_text].
Definition flat_embeddings (texts : list string) : ndarray :=
  mk_ndarray 1 ((fun _ => [0 # 1]%Q) <$> texts).

(** A process restart: the module globals are back at their initial values
    ([_index = None], [_metadata = []]), the files are as they were. *)
Definition restart (st : store) : store :=
  {| _index := None; _metadata := [];
     INDEX_PATH := INDEX_PATH st; METADATA_PATH := METADATA_PATH st |}.

(** The vectors the index holds, in label order, once loaded. *)
Definition stored_vectors : M (list (list Q)) :=
  _ensure_loaded;; st ← get_store;
  mret (match _index st with Some ix => Faiss.xb ix | None => [] end).

(** What the loop of [search] makes of one FAISS hit: nothing for the
    padding label or a label beyond the log, else the log entry at that
    label with the distance of the hit. *)
Definition hit_entry (md : list dict) (h : Q * Z) : option (dict * Q) :=
  if h.2 =? -1 then None
  else (fun m => (m, h.1)) <$> md !! Z.to_nat h.2.

(** Hits in ascending order of distance. *)
Definition by_distance (a b : Q * Z) : Prop := (a.1 <= b.1)%Q.

(** The characters of a string, and those of them that are not
    whitespace, in order. *)
Fixpoint chars (s : string) : list ascii :=
  match s with
  | EmptyString => []
  | String c s' => c :: chars s'
  end.

Definition visible (s : string) : list ascii :=
  filter (fun c => is_space c = false) (chars s).

Definition no_newline (s : string) : Prop :=
  Forall (fun c => c <> newline) (chars s).

(** The pieces the chunker works on: for each page whose text is not
    blank, in page order, the pieces the splitter cuts its text into, each
    with its page. *)
Definition pieces (split_text : string -> list string)
    (pages_data : list page_data) : list (page_data * string) :=
  concat ((fun pd => (fun t => (pd, t)) <$> split_text (text pd))
            <$> filter (fun pd => nonempty (strip (text pd)) = true)
                       pages_data).

(** The chunk made of the piece at position [i]. *)
Definition chunk_at (i : nat) (piece : page_data * string) : dict :=
  chunk_dict piece.2 (page piece.1) (Z.of_nat i) (pdf_name piece.1).

(** Every entry marked as a heading comes directly after an entry that is
    not a heading (so the first entry is never a heading and no two
    headings are adjacent). *)
Definition headings_placed (entries : list (string * bool)) : Prop :=
  forall (i : nat) (t : string),
    entries !! i = Some (t, true) ->
    exists (j : nat) (t' : string),
      i = S j /\ entries !! j = Some (t', false).

(** The non-whitespace characters of a list of entries, in order. *)
Definition shown (entries : list (string * bool)) : list ascii :=
  concat ((fun e : string * bool => visible e.1) <$> entries).

(** An entry of [detect_headings] in good form. *)
Definition entry_wellformed (e : string * bool) : Prop :=
  e.1 <> EmptyString /\ trimmed e.1 /\ (e.2 = true -> no_newline e.1).

(** * Properties *)

(** ** Running the store monad *)

Ltac run_monad :=
  unfold outcome, after, set_index, set_metadata in *;
  unfold mbind, M_bind, mret, M_ret, lift, raise, get_store, put_store in *;
  cbn [fst snd _index _metadata INDEX_PATH METADATA_PATH] in *.

Lemma ensure_loaded_run (st : store) : _ensure_loaded st = (Ok (), loaded st).
Proof.
  destruct st as [[ix|] md [fi|] [fm|]]; reflexivity.
Qed.

Lemma loaded_idem (st : store) : loaded (loaded st) = loaded st.
Proof.
  destruct st as [[ix|] md [fi|] [fm|]]; reflexivity.
Qed.

Lemma get_index_size_run (st : store) :
  get_index_size st = (Ok (index_size_of (loaded st)), loaded st).
Proof.
  unfold get_index_size. run_monad. rewrite ensure_loaded_run. reflexivity.
Qed.

Lemma metadata_log_run (st : store) :
  metadata_log st = (Ok (_metadata (loaded st)), loaded st).
Proof.
  unfold metadata_log. run_monad. rewrite ensure_loaded_run. reflexivity.
Qed.

Lemma index_width_run (st : store) :
  index_width st = (Ok (Faiss.d <$> _index (loaded st)), loaded st).
Proof.
  unfold index_width. run_monad. rewrite ensure_loaded_run. reflexivity.
Qed.

(** [add_to_index] in one step: the index it works on, the width test of
    FAISS, and the store it leaves in either case. *)
Lemma add_to_index_run (e : ndarray) (ms : list dict) (st : store) :
  add_to_index e ms st =
  match _index (loaded st) with
  | Some ix =>
      if decide (shape1 e = Faiss.d ix) then
        let ix' := {| Faiss.d := Faiss.d ix; Faiss.xb := Faiss.xb ix ++ data e |} in
        (Ok (), {| _index := Some ix';
                   _metadata := _metadata (loaded st) ++ ms;
                   INDEX_PATH := Some ix';
                   METADATA_PATH := Some (_metadata (loaded st) ++ ms) |})
      else (Raise AssertionError, loaded st)
  | None =>
      let ix' := {| Faiss.d := shape1 e; Faiss.xb := data e |} in
      (Ok (), {| _index := Some ix'; _metadata := ms;
                 INDEX_PATH := Some ix'; METADATA_PATH := Some ms |})
  end.
Proof.
  unfold add_to_index. run_monad. rewrite ensure_loaded_run.
  destruct (loaded st) as [[ix|] md fi fm]; cbn.
  - unfold Faiss.add. destruct (decide (shape1 e = Faiss.d ix)); reflexivity.
  - unfold Faiss.add, Faiss.new; cbn.
    destruct (decide (shape1 e = shape1 e)); [reflexivity | congruence].
Qed.

(** ** FAISS reports only labels of stored vectors *)

Lemma insert_hit_Forall (P : Q * Z -> Prop) (h : Q * Z) (hs : list (Q * Z)) :
  P h -> Forall P hs -> Forall P (Faiss.insert_hit h hs).
Proof.
  intros Hh Hhs. induction Hhs as [|h' tl Hh' Htl IH]; cbn.
  - constructor; [exact Hh | constructor].
  - destruct (Qle_bool h'.1 h.1); repeat constructor; assumption.
Qed.

Lemma sort_hits_Forall (P : Q * Z -> Prop) (hs : list (Q * Z)) :
  Forall P hs -> Forall P (Faiss.sort_hits hs).
Proof.
  unfold Faiss.sort_hits. induction 1 as [|h tl Hh Htl IH]; cbn.
  - constructor.
  - apply insert_hit_Forall; assumption.
Qed.

Lemma scan_labels (q : list Q) (vs : list (list Q)) :
  Forall (fun h : Q * Z => label_ok (length vs) h.2) (Faiss.scan q vs).
Proof.
  apply Forall_forall. intros h Hin.
  apply elem_of_lookup_imap in Hin as (i & v & -> & Hi).
  apply lookup_lt_Some in Hi. right. cbn. lia.
Qed.

Lemma knn_labels (vs : list (list Q)) (k : nat) (q : list Q) :
  Forall (fun h : Q * Z => label_ok (length vs) h.2) (Faiss.knn vs k q).
Proof.
  unfold Faiss.knn. apply Forall_app. split.
  - apply Forall_take, sort_hits_Forall, scan_labels.
  - apply Forall_replicate. left. reflexivity.
Qed.

Lemma faiss_search_labels (ix : Faiss.IndexFlatL2) (x : ndarray) (k : Z)
    (D : list (list Q)) (I : list (list Z)) :
  Faiss.search ix x k = Ok (D, I) ->
  Forall (Forall (label_ok (Faiss.ntotal ix))) I.
Proof.
  unfold Faiss.search. repeat case_decide; try discriminate.
  intros [= _ <-]. apply Forall_forall. intros row Hrow.
  apply list_elem_of_fmap in Hrow as (hits & -> & Hhits).
  apply list_elem_of_fmap in Hhits as (q & -> & _).
  apply Forall_fmap. exact (knn_labels (Faiss.xb ix) (Z.to_nat k) q).
Qed.

Lemma py_getitem_elem {A} (l : list A) (i : Z) (a : A) :
  py_getitem l i = Ok a -> a ∈ l.
Proof.
  unfold py_getitem.
  destruct (_ && _); [|discriminate].
  destruct (l !! _) eqn:E; [|discriminate].
  intros [= <-]. eapply list_elem_of_lookup_2; exact E.
Qed.

Lemma py_getitem_nonneg {A} (l : list A) (i : Z) (a : A) :
  0 <= i -> py_getitem l i = Ok a -> l !! Z.to_nat i = Some a.
Proof.
  unfold py_getitem. intros Hi.
  destruct (i <? 0) eqn:E; [lia|].
  destruct (_ && _); [|discriminate].
  destruct (l !! _) eqn:E'; [|discriminate]. congruence.
Qed.

Lemma zip_labels (P : Z -> Prop) (D0 : list Q) (I0 : list Z) :
  Forall P I0 -> Forall (fun h : Q * Z => P h.2) (zip D0 I0).
Proof.
  intros HI. revert D0. induction HI as [|l I0 Hl HI IH]; intros [|q D0]; cbn;
    constructor; auto.
Qed.

(** ** The loop of [search] *)

Lemma search_loop_in_range (n : nat) (md : list dict) (P : dict * Q -> Prop)
    (hits : list (Q * Z)) :
  (forall (i : nat) (m : dict) (dist : Q),
      (i < n)%nat -> md !! i = Some m -> P (m, dist)) ->
  Forall (fun h : Q * Z => label_ok n h.2) hits ->
  forall acc res,
    Forall P acc -> search_loop md hits acc = Ok res -> Forall P res.
Proof.
  intros HP Hhits. induction Hhits as [|[dist idx] rest Hh Hrest IH];
    intros acc res Hacc; cbn.
  - intros [= <-]. exact Hacc.
  - destruct (idx =? -1) eqn:E1; [apply IH; exact Hacc|].
    destruct (idx <? Z.of_nat (length md)) eqn:E2; [|apply IH; exact Hacc].
    destruct (py_getitem md idx) as [m|e] eqn:E3; [|discriminate].
    apply IH. apply Forall_app. split; [exact Hacc|].
    constructor; [|constructor].
    destruct Hh as [Hh|Hh]; cbn in Hh; [lia|].
    apply (HP (Z.to_nat idx)); [lia|].
    apply py_getitem_nonneg; [lia | exact E3].
Qed.

Lemma search_run (q : ndarray) (k : Z) (st : store) :
  after (search q k) st = loaded st /\
  forall res, outcome (search q k) st = Ok res ->
              Forall (entry_in_range (loaded st)) res.
Proof.
  unfold search. run_monad. rewrite ensure_loaded_run.
  destruct (_index (loaded st)) as [ix|] eqn:Eix; cbn.
  2: { split; [reflexivity|]. intros res [= <-]. constructor. }
  case_decide as Hn; cbn.
  { split; [reflexivity|]. intros res [= <-]. constructor. }
  split; [reflexivity|]. intros res.
  destruct (Faiss.search ix q k) as [[D I]|e] eqn:ES; cbn; [|discriminate].
  destruct (py_getitem D 0) as [D0|e] eqn:ED; cbn; [|discriminate].
  destruct (py_getitem I 0) as [I0|e] eqn:EI; cbn; [|discriminate].
  apply (search_loop_in_range (Faiss.ntotal ix)).
  - intros i m dist Hi Hm. exists i. unfold index_size_of. rewrite Eix.
    split; assumption.
  - apply zip_labels.
    apply faiss_search_labels in ES.
    apply py_getitem_elem in EI.
    eapply Forall_forall in ES; [exact ES | exact EI].
  - constructor.
Qed.

(** ** The vector index *)

Lemma add_to_index_loaded (e : ndarray) (ms : list dict) (st : store) :
  loaded (after (add_to_index e ms) st) = after (add_to_index e ms) st.
Proof.
  unfold after. rewrite add_to_index_run.
  destruct (_index (loaded st)) as [ix|] eqn:E.
  - case_decide; cbn; [reflexivity | apply loaded_idem].
  - reflexivity.
Qed.

Lemma add_to_index_aligned (e : ndarray) (ms : list dict) (st : store) :
  shape0 e = length ms ->
  index_size_of (loaded st) = length (_metadata (loaded st)) ->
  index_size_of (after (add_to_index e ms) st)
  = length (_metadata (after (add_to_index e ms) st)).
Proof.
  unfold after, shape0. rewrite add_to_index_run. intros Hb Hal.
  unfold index_size_of in *.
  destruct (_index (loaded st)) as [ix|] eqn:E.
  - case_decide; cbn.
    + unfold Faiss.ntotal in *. cbn. rewrite !length_app. lia.
    + rewrite E. exact Hal.
  - cbn. exact Hb.
Qed.

Lemma run_adds_aligned (adds : list (ndarray * list dict)) (st : store) :
  Forall balanced adds ->
  index_size_of (loaded st) = length (_metadata (loaded st)) ->
  index_size_of (loaded (run_adds adds st))
  = length (_metadata (loaded (run_adds adds st))).
Proof.
  intros Hb. revert st. induction Hb as [|[e ms] adds Ha Hb IH]; intros st Hal.
  - exact Hal.
  - cbn. apply IH. rewrite add_to_index_loaded.
    apply add_to_index_aligned; [exact Ha | exact Hal].
Qed.

Lemma size_matches_log_iff (st : store) :
  size_matches_log st <->
  index_size_of (loaded st) = length (_metadata (loaded st)).
Proof.
  unfold size_matches_log, outcome.
  rewrite get_index_size_run, metadata_log_run. cbn. split.
  - intros (n & log & [= <-] & [= <-] & H). exact H.
  - intros H. eauto.
Qed.

(** C1, as stated, fails: one call with one vector and two metadata entries
    leaves [size() = 1] beside a log of two entries. *)
Lemma C1_counterexample :
  ~ size_matches_log
      (run_adds [(mk_ndarray 1 [vec1 0],
                  [sample_chunk "a.pdf" 0; sample_chunk "a.pdf" 1])] fresh).
Proof.
  rewrite size_matches_log_iff. vm_compute. discriminate.
Qed.

(** C1 (amended): after every sequence of [add_to_index] calls on the empty
    store in which each call offers as many metadata entries as vectors,
    [get_index_size] equals the length of the metadata log; and after any
    sequence of calls whatever, every entry [search] returns is the log entry
    at a position below the current vector count. *)
Theorem C1_parallel_invariant
    (adds : list (ndarray * list dict)) (q : ndarray) (k : Z) :
  (Forall balanced adds -> size_matches_log (run_adds adds fresh)) /\
  (forall res,
      outcome (search q k) (run_adds adds fresh) = Ok res ->
      Forall (entry_in_range (after (search q k) (run_adds adds fresh))) res).
Proof.
  split.
  - intros Hb. apply size_matches_log_iff.
    apply run_adds_aligned; [exact Hb | reflexivity].
  - intros res Hres.
    destruct (search_run q k (run_adds adds fresh)) as [-> H].
    apply H. exact Hres.
Qed.

Lemma C1_parallel_invariant_witness :
  size_matches_log
    (run_adds [(mk_ndarray 1 [vec1 0; vec1 3],
                [sample_chunk "a.pdf" 0; sample_chunk "a.pdf" 1]);
               (mk_ndarray 1 [vec1 5], [sample_chunk "b.pdf" 0])] fresh).
Proof.
  apply (C1_parallel_invariant _ (mk_ndarray 1 [vec1 1]) 5).
  repeat constructor.
Defined.

(** C2, as stated, fails: offered one vector and two metadata entries, the
    call returns normally, having appended the vector and both entries. *)
Lemma C2_counterexample :
  let e := mk_ndarray 1 [vec1 0] in
  let ms := [sample_chunk "a.pdf" 0; sample_chunk "a.pdf" 1] in
  shape0 e <> length ms /\
  outcome (add_to_index e ms) fresh = Ok () /\
  outcome get_index_size (after (add_to_index e ms) fresh) = Ok 1%nat /\
  outcome metadata_log (after (add_to_index e ms) fresh) = Ok ms.
Proof.
  cbn zeta. split; [cbn; lia|]. repeat split; vm_compute; reflexivity.
Qed.

(** C2 (amended): [add_to_index] does not compare the number of vectors with
    the number of metadata entries. Whenever no index exists yet or the
    offered width is the width of the index, the call returns normally, the
    vector count grows by the number of vectors offered and the log is
    extended by all the entries offered, whether or not the two numbers
    agree. *)
Theorem C2_add_appends_unchecked
    (st : store) (e : ndarray) (ms : list dict) :
  outcome index_width st = Ok None \/
  outcome index_width st = Ok (Some (shape1 e)) ->
  outcome (add_to_index e ms) st = Ok () /\
  (exists n, outcome get_index_size st = Ok n /\
             outcome get_index_size (after (add_to_index e ms) st)
             = Ok (n + shape0 e)%nat) /\
  (exists kept, outcome metadata_log (after (add_to_index e ms) st)
                = Ok (kept ++ ms) /\
                (outcome index_width st <> Ok None ->
                 outcome metadata_log st = Ok kept)).
Proof.
  unfold outcome, after. rewrite index_width_run.
  rewrite !get_index_size_run, !metadata_log_run, add_to_index_run. cbn.
  unfold index_size_of, shape0.
  destruct (_index (loaded st)) as [ix|] eqn:E; cbn.
  - intros [H|H]; [discriminate|]. injection H as H.
    case_decide; [|congruence]. cbn. split; [reflexivity|]. split.
    + eexists. split; [reflexivity|]. unfold Faiss.ntotal. cbn.
      rewrite length_app. reflexivity.
    + eexists. split; [reflexivity|]. reflexivity.
  - intros _. split; [reflexivity|]. split.
    + eexists. split; reflexivity.
    + exists []. split; [reflexivity|]. congruence.
Qed.

Lemma C2_add_appends_unchecked_witness :
  outcome (add_to_index (mk_ndarray 1 [vec1 0])
             [sample_chunk "a.pdf" 0; sample_chunk "a.pdf" 1]) fresh = Ok ().
Proof.
  apply (C2_add_appends_unchecked fresh (mk_ndarray 1 [vec1 0])
           [sample_chunk "a.pdf" 0; sample_chunk "a.pdf" 1]).
  left. reflexivity.
Defined.

(** C4: when the index has width [D], offering an array of another width
    makes [add_to_index] raise (the assertion of FAISS), and the store is
    left as loading left it: the same index with the same vectors, the same
    [get_index_size], the same metadata log, the same persisted files. *)
Theorem C4_dimension_fixation
    (st : store) (e : ndarray) (ms : list dict) (D : nat) :
  outcome index_width st = Ok (Some D) ->
  shape1 e <> D ->
  outcome (add_to_index e ms) st = Raise AssertionError /\
  after (add_to_index e ms) st = after _ensure_loaded st /\
  outcome get_index_size (after (add_to_index e ms) st)
  = outcome get_index_size st /\
  outcome metadata_log (after (add_to_index e ms) st)
  = outcome metadata_log st /\
  INDEX_PATH (after (add_to_index e ms) st) = INDEX_PATH st /\
  METADATA_PATH (after (add_to_index e ms) st) = METADATA_PATH st.
Proof.
  unfold outcome, after. rewrite index_width_run, ensure_loaded_run.
  rewrite !get_index_size_run, !metadata_log_run, add_to_index_run. cbn.
  destruct (_index (loaded st)) as [ix|] eqn:E; cbn; [|discriminate].
  intros [= <-] Hne. case_decide; [contradiction|]. cbn.
  rewrite loaded_idem. repeat split.
  - destruct st as [[ix'|] md [fi|] [fm|]]; reflexivity.
  - destruct st as [[ix'|] md [fi|] [fm|]]; reflexivity.
Qed.

Lemma C4_dimension_fixation_witness :
  let st := run_adds [(mk_ndarray 1 [vec1 0], [sample_chunk "a.pdf" 0])] fresh in
  outcome (add_to_index (mk_ndarray 2 [[0 # 1; 1 # 1]%Q])
             [sample_chunk "b.pdf" 0]) st = Raise AssertionError.
Proof.
  cbn zeta.
  refine (proj1 (C4_dimension_fixation _ (mk_ndarray 2 [[0 # 1; 1 # 1]%Q])
                   [sample_chunk "b.pdf" 0] 1 _ _)).
  - vm_compute. reflexivity.
  - cbn. lia.
Defined.

(** C7: [clear_index] run twice leaves the store the first run left, the
    second run returning normally; after any [clear_index],
    [get_index_size] is 0 and [get_indexed_pdfs] is empty. *)
Theorem C7_clear_idempotent (st : store) :
  after clear_index (after clear_index st) = after clear_index st /\
  outcome clear_index (after clear_index st) = Ok () /\
  outcome get_index_size (after clear_index st) = Ok 0%nat /\
  outcome get_indexed_pdfs (after clear_index st) = Ok ∅.
Proof.
  repeat split.
Qed.

(** C8: on a store whose [get_index_size] is 0, [search] returns the empty
    list for every query array and every [top_k], and does not raise. *)
Theorem C8_search_empty_index (st : store) (q : ndarray) (k : Z) :
  outcome get_index_size st = Ok 0%nat ->
  outcome (search q k) st = Ok [].
Proof.
  unfold outcome. rewrite get_index_size_run. cbn. intros [= Hn].
  unfold search. run_monad. rewrite ensure_loaded_run.
  unfold index_size_of in Hn.
  destruct (_index (loaded st)) as [ix|]; cbn; [|reflexivity].
  case_decide; [reflexivity | congruence].
Qed.

Lemma C8_search_empty_index_witness :
  outcome (search (mk_ndarray 1 [vec1 2]) 5) fresh = Ok [] /\
  outcome (search (mk_ndarray 3 []) 0)
    (after (add_to_index (mk_ndarray 1 []) []) fresh) = Ok [].
Proof.
  split; apply C8_search_empty_index; reflexivity.
Defined.

(** ** The retriever *)

Lemma retrieve_loop_take (top_k : Z) (t : Q) (f : option string)
    (raw : list (dict * Q)) (acc : list dict) :
  retrieve_loop top_k t f raw acc
  = acc ++ take (quota top_k (length acc))
             (passage <$> filter (fun r => passes t f r = true) raw).
Proof.
  revert acc. induction raw as [|[m dist] rest IH]; intros acc.
  - cbn. rewrite take_nil, app_nil_r. reflexivity.
  - cbn [retrieve_loop].
    destruct (Qle_bool dist t) eqn:Et; cbn [negb].
    2: { rewrite filter_cons_False; [apply IH|].
         unfold passes; cbn. rewrite Et. discriminate. }
    destruct (truthy f && py_ne_str (m !! "pdf_name") f) eqn:Ef.
    { rewrite filter_cons_False; [apply IH|].
      unfold passes; cbn. rewrite Et, Ef. discriminate. }
    rewrite filter_cons_True by (unfold passes; cbn; rewrite Et, Ef; reflexivity).
    rewrite fmap_cons. cbn zeta.
    change (<["score" := VFloat (py_round4 dist)]> m) with (passage (m, dist)).
    destruct (Z.of_nat (length (acc ++ [passage (m, dist)])) >=? top_k) eqn:Ek.
    + rewrite length_app in Ek. cbn in Ek. apply Z.geb_le in Ek.
      assert (quota top_k (length acc) = 1%nat) as -> by (unfold quota; lia).
      cbn. rewrite take_0. reflexivity.
    + rewrite IH. rewrite length_app in *. cbn in Ek. cbn [length].
      rewrite Z.geb_leb in Ek. apply Z.leb_gt in Ek.
      assert (quota top_k (length acc)
              = S (quota top_k (length acc + 1))) as -> by (unfold quota; lia).
      cbn. rewrite <- app_assoc. reflexivity.
Qed.

Lemma retrieve_run (embed : string -> ndarray) (query : string) (top_k : Z)
    (t : Q) (f : option string) (st : store) :
  outcome (retrieve embed query top_k t f) st
  = match outcome (search (embed query) (fetch_k top_k f)) st with
    | Ok raw =>
        Ok (take (quota top_k 0)
              (passage <$> filter (fun r => passes t f r = true) raw))
    | Raise e => Raise e
    end.
Proof.
  unfold retrieve. run_monad.
  destruct (search (embed query) (fetch_k top_k f) st) as [[raw|e] st'];
    cbn; [|reflexivity].
  rewrite retrieve_loop_take. reflexivity.
Qed.

Lemma filter_length_mono {A} (P1 P2 : A -> Prop)
    `{!forall x, Decision (P1 x)} `{!forall x, Decision (P2 x)} (l : list A) :
  (forall x, P1 x -> P2 x) ->
  (length (filter P1 l) <= length (filter P2 l))%nat.
Proof.
  intros Himp. induction l as [|x l IH]; [reflexivity|].
  rewrite !filter_cons.
  destruct (decide (P1 x)) as [H1|H1]; destruct (decide (P2 x)) as [H2|H2];
    cbn; try lia.
  exfalso. auto.
Qed.

Lemma passes_mono (t1 t2 : Q) (f : option string) (r : dict * Q) :
  (t1 <= t2)%Q -> passes t1 f r = true -> passes t2 f r = true.
Proof.
  unfold passes. intros Hle H.
  apply andb_true_iff in H as [Hd Hf]. rewrite Hf, andb_true_r.
  apply Qle_bool_iff. apply Qle_bool_iff in Hd.
  eapply Qle_trans; [exact Hd | exact Hle].
Qed.

(** C5: with the query, the store, [top_k] and the source filter fixed and
    [t1 <= t2], [retrieve] raises under both thresholds alike or returns
    under both, and then returns at least as many passages under [t2] as
    under [t1]. *)
Theorem C5_threshold_monotone
    (embed : string -> ndarray) (st : store) (query : string) (top_k : Z)
    (pdf_filter : option string) (t1 t2 : Q) :
  (t1 <= t2)%Q ->
  match outcome (retrieve embed query top_k t1 pdf_filter) st,
        outcome (retrieve embed query top_k t2 pdf_filter) st with
  | Ok r1, Ok r2 => (length r1 <= length r2)%nat
  | Raise e1, Raise e2 => e1 = e2
  | _, _ => False
  end.
Proof.
  intros Hle. rewrite !retrieve_run.
  destruct (outcome (search _ _) st) as [raw|e]; [|reflexivity].
  rewrite !length_take, !length_fmap.
  pose proof (filter_length_mono
                (fun r => passes t1 pdf_filter r = true)
                (fun r => passes t2 pdf_filter r = true) raw
                (fun r => passes_mono t1 t2 pdf_filter r Hle)).
  lia.
Qed.

Lemma C5_threshold_monotone_witness :
  (length (match outcome (retrieve origin_query "light reaction" 5 (1 # 1)
                            None) two_passages with
           | Ok r => r | Raise _ => [] end)
   <= length (match outcome (retrieve origin_query "light reaction" 5 (3 # 1)
                               None) two_passages with
              | Ok r => r | Raise _ => [] end))%nat.
Proof.
  pose proof (C5_threshold_monotone origin_query two_passages
                "light reaction" 5 None (1 # 1) (3 # 1)) as H.
  assert ((1 # 1 <= 3 # 1)%Q) as Hle by (vm_compute; discriminate).
  specialize (H Hle).
  destruct (outcome (retrieve origin_query "light reaction" 5 (1 # 1) None)
              two_passages) as [r1|e1];
    destruct (outcome (retrieve origin_query "light reaction" 5 (3 # 1) None)
                two_passages) as [r2|e2]; cbn in *;
    [exact H | destruct H | destruct H | apply Nat.le_refl].
Defined.

(** C6, as stated, fails for the empty string, a filter other than [None]:
    the passage of [a.pdf] is returned under [pdf_filter=""]. *)
Lemma C6_counterexample :
  exists p : dict,
    outcome (retrieve origin_query "light reaction" 5 RELEVANCE_THRESHOLD
               (Some "")) two_passages = Ok [p] /\
    p !! "pdf_name" = Some (VStr "a.pdf") /\
    p !! "pdf_name" <> Some (VStr "").
Proof.
  eexists. split; [vm_compute; reflexivity|].
  split; [vm_compute; reflexivity | vm_compute; discriminate].
Qed.

(** C6 (amended): for every query and every source filter [X] that is a
    non-empty string, every passage [retrieve] returns has [pdf_name] equal
    to [X]. *)
Theorem C6_source_filter_exact
    (embed : string -> ndarray) (st : store) (query : string) (top_k : Z)
    (t : Q) (X : string) (res : list dict) :
  X <> "" ->
  outcome (retrieve embed query top_k t (Some X)) st = Ok res ->
  Forall (fun p : dict => p !! "pdf_name" = Some (VStr X)) res.
Proof.
  intros HX. rewrite retrieve_run.
  destruct (outcome (search _ _) st) as [raw|e]; [|discriminate].
  intros [= <-]. apply Forall_take, Forall_fmap, Forall_forall.
  intros [m dist] Hin. apply list_elem_of_filter in Hin as [Hp _].
  unfold passes in Hp. cbn in Hp.
  apply andb_true_iff in Hp as [_ Hp]. apply negb_true_iff in Hp.
  assert (String.eqb X "" = false) as EX by (apply String.eqb_neq; exact HX).
  rewrite EX in Hp. cbn in Hp.
  unfold passage. cbn. rewrite lookup_insert_ne by discriminate.
  destruct (m !! "pdf_name") as [[| | |s]|]; try discriminate.
  apply negb_false_iff, String.eqb_eq in Hp. congruence.
Qed.

Lemma C6_source_filter_exact_witness :
  Forall (fun p : dict => p !! "pdf_name" = Some (VStr "b.pdf"))
    (match outcome (retrieve origin_query "light reaction" 5 (3 # 1)
                      (Some "b.pdf")) two_passages with
     | Ok r => r | Raise _ => [] end).
Proof.
  destruct (outcome (retrieve origin_query "light reaction" 5 (3 # 1)
                       (Some "b.pdf")) two_passages) as [r|e] eqn:E.
  - apply (C6_source_filter_exact origin_query two_passages "light reaction"
             5 (3 # 1) "b.pdf" r); [discriminate | exact E].
  - constructor.
Defined.

(** C10: [retrieve] with [pdf_filter=""] is [retrieve] with
    [pdf_filter=None], outcome and store alike; the number of candidates
    fetched stays [top_k]; and no raw result is dropped for its source: the
    passages are the first ones within the threshold, whatever their
    [pdf_name]. *)
Theorem C10_empty_filter_is_no_filter
    (embed : string -> ndarray) (st : store) (query : string) (top_k : Z)
    (t : Q) :
  retrieve embed query top_k t (Some "") st
  = retrieve embed query top_k t None st /\
  fetch_k top_k (Some "") = top_k /\
  forall raw : list (dict * Q),
    retrieve_loop top_k t (Some "") raw []
    = take (quota top_k 0)
        (passage <$> filter (fun r => Qle_bool r.2 t = true) raw).
Proof.
  split; [|split].
  - unfold retrieve, fetch_k. cbn. run_monad.
    destruct (search (embed query) top_k st) as [[raw|e] st']; [|reflexivity].
    f_equal. f_equal. revert raw. generalize (@nil dict).
    intros acc raw. revert acc.
    induction raw as [|[m dist] rest IH]; intros acc; [reflexivity|].
    cbn. destruct (Qle_bool dist t); cbn; [|apply IH].
    destruct (_ >=? _); [reflexivity | apply IH].
  - reflexivity.
  - intros raw. rewrite retrieve_loop_take. cbn. f_equal. f_equal.
    apply list_filter_iff. intros r. unfold passes. cbn.
    rewrite andb_true_r. reflexivity.
Qed.

(** ** The chunker *)

Lemma chunk_dict_id (chunk_text : string) (page_num id : Z) (name : string) :
  chunk_dict chunk_text page_num id name !! "chunk_id" = Some (VInt id).
Proof. reflexivity. Qed.

Lemma ids_from_zero_S (n : nat) :
  ids_from_zero (S n) = ids_from_zero n ++ [Some (VInt (Z.of_nat n))].
Proof.
  unfold ids_from_zero. rewrite seq_S, fmap_app. reflexivity.
Qed.

Lemma append_chunks_numbered (chunks : list string) (page_num : Z)
    (name : string) (all_chunks : list dict) (id : Z) :
  numbered all_chunks id ->
  numbered (append_chunks chunks page_num name all_chunks id).1
           (append_chunks chunks page_num name all_chunks id).2.
Proof.
  revert all_chunks id.
  induction chunks as [|c chunks IH]; intros acc id Hn; [exact Hn|].
  cbn [append_chunks]. apply IH.
  destruct Hn as [Hids ->]. unfold numbered, chunk_ids in *.
  rewrite fmap_app, length_app, Hids. cbn [length fmap list_fmap].
  rewrite Nat.add_1_r, ids_from_zero_S, chunk_dict_id. split; [reflexivity|lia].
Qed.

Lemma chunk_loop_numbered (split_text : string -> list string)
    (pages_data : list page_data) (all_chunks : list dict) (id : Z) :
  numbered all_chunks id ->
  chunk_ids (chunk_loop split_text pages_data all_chunks id)
  = ids_from_zero (length (chunk_loop split_text pages_data all_chunks id)).
Proof.
  revert all_chunks id.
  induction pages_data as [|pd rest IH]; intros acc id Hn; cbn [chunk_loop].
  - apply Hn.
  - destruct (nonempty (strip (text pd))); [|apply IH; exact Hn].
    pose proof (append_chunks_numbered (split_text (text pd)) (page pd)
                  (pdf_name pd) acc id Hn) as Hn'.
    destruct (append_chunks _ _ _ acc id) as [acc' id']. apply IH. exact Hn'.
Qed.

(** C3, as stated, fails: a second document ingested into a corpus of one
    chunk has its first chunk numbered 0, the number the corpus already
    holds. *)
Lemma C3_counterexample :
  let st1 := after (upload_pdf whole_page flat_embeddings "a.pdf"
                      [Some "alpha"]) fresh in
  let st2 := after (upload_pdf whole_page flat_embeddings "b.pdf"
                      [Some "beta"]) st1 in
  exists c0 c1 : dict,
    outcome metadata_log st1 = Ok [c0] /\
    outcome metadata_log st2 = Ok [c0; c1] /\
    c0 !! "chunk_id" = Some (VInt 0) /\
    c1 !! "pdf_name" = Some (VStr "b.pdf") /\
    c1 !! "chunk_id" = Some (VInt 0).
Proof.
  cbn zeta. eexists. eexists.
  split; [vm_compute; reflexivity|].
  split; [vm_compute; reflexivity|].
  repeat split; vm_compute; reflexivity.
Qed.

(** C3 (amended): within one call of the chunker the [chunk_id] values are
    0, 1, 2, ... in the order of the chunks, hence unique and strictly
    increasing within the document ingested by that call; the first chunk of
    every call is numbered 0, whatever the corpus holds. *)
Theorem C3_chunk_ids_per_call
    (split_text : string -> list string) (pages_data : list page_data) :
  chunk_ids (_chunk_pages_simple split_text pages_data)
  = ids_from_zero (length (_chunk_pages_simple split_text pages_data)) /\
  forall c : dict,
    head (_chunk_pages_simple split_text pages_data) = Some c ->
    c !! "chunk_id" = Some (VInt 0).
Proof.
  assert (chunk_ids (_chunk_pages_simple split_text pages_data)
          = ids_from_zero (length (_chunk_pages_simple split_text pages_data)))
    as H by (apply chunk_loop_numbered; split; reflexivity).
  split; [exact H|].
  intros c Hc. destruct (_chunk_pages_simple split_text pages_data) as [|c' l];
    [discriminate|].
  injection Hc as ->. cbn in H. injection H as H _. exact H.
Qed.

Lemma C3_chunk_ids_per_call_witness :
  chunk_ids (_chunk_pages_simple (fun s => [s; s])
               [mk_page 1 "alpha" "a.pdf"; mk_page 2 " " "a.pdf";
                mk_page 3 "gamma" "a.pdf"])
  = [Some (VInt 0); Some (VInt 1); Some (VInt 2); Some (VInt 3)].
Proof.
  exact (proj1 (C3_chunk_ids_per_call (fun s => [s; s])
                  [mk_page 1 "alpha" "a.pdf"; mk_page 2 " " "a.pdf";
                   mk_page 3 "gamma" "a.pdf"])).
Defined.

(** ** The text extractor *)

Lemma all_space_append (a b : string) :
  all_space (a +:+ b) = all_space a && all_space b.
Proof.
  induction a as [|c a IH]; simpl; [reflexivity|].
  rewrite IH. apply andb_assoc.
Qed.

Lemma append_String (c : ascii) (a b : string) :
  String c a +:+ b = String c (a +:+ b).
Proof. reflexivity. Qed.

Lemma append_empty (b : string) : EmptyString +:+ b = b.
Proof. reflexivity. Qed.

Lemma lstrip_spec (s : string) :
  exists pre,
    s = pre +:+ lstrip s /\ all_space pre = true /\
    (forall c, first_char (lstrip s) = Some c -> is_space c = false).
Proof.
  induction s as [|c s (pre & Hs & Hpre & Hfirst)]; simpl.
  - exists EmptyString. repeat split. discriminate.
  - destruct (is_space c) eqn:Ec.
    + exists (String c pre). simpl. rewrite Ec, Hpre, append_String, <- Hs.
      split; [reflexivity|]. split; [reflexivity | exact Hfirst].
    + exists EmptyString. simpl. repeat split. intros c' [= <-]. exact Ec.
Qed.

Lemma rstrip_spec (s : string) :
  exists post,
    s = rstrip s +:+ post /\ all_space post = true /\
    (forall c, last_char (rstrip s) = Some c -> is_space c = false) /\
    (rstrip s <> EmptyString -> first_char (rstrip s) = first_char s).
Proof.
  induction s as [|c s (post & Hs & Hpost & Hlast & Hfirst)]; simpl.
  - exists EmptyString. repeat split. discriminate.
  - destruct (rstrip s) as [|c' r] eqn:Er.
    + rewrite append_empty in Hs. destruct (is_space c) eqn:Ec.
      * exists (String c post). simpl. rewrite Ec, Hpost, append_empty, <- Hs.
        repeat split; try discriminate; congruence.
      * exists post. rewrite append_String, append_empty, <- Hs. simpl.
        repeat split; try congruence.
    + exists post. rewrite !append_String in *. rewrite <- Hs.
      repeat split; assumption.
Qed.

(** [strip] removes a whitespace prefix and a whitespace suffix and nothing
    else; what remains neither starts nor ends with whitespace. *)
Lemma strip_spec (s : string) :
  exists pre post,
    s = pre +:+ strip s +:+ post /\
    all_space pre = true /\ all_space post = true /\ trimmed (strip s).
Proof.
  unfold strip.
  destruct (lstrip_spec s) as (pre & Hs & Hpre & Hfirst).
  destruct (rstrip_spec (lstrip s)) as (post & Hl & Hpost & Hlast & Hkeep).
  exists pre, post. split; [congruence|]. split; [exact Hpre|].
  split; [exact Hpost|]. split; [|exact Hlast].
  intros c Hc. apply Hfirst. rewrite <- Hkeep; [exact Hc|].
  intros E. rewrite E in Hc. discriminate.
Qed.

Lemma strip_nonempty (s : string) : nonempty (strip s) = has_text s.
Proof.
  destruct (strip_spec s) as (pre & post & Hs & Hpre & Hpost & Hfirst & _).
  unfold has_text. rewrite Hs at 2.
  rewrite !all_space_append, Hpre, Hpost, andb_true_r. cbn.
  destruct (strip s) as [|c r]; [reflexivity|].
  cbn. rewrite (Hfirst c eq_refl). reflexivity.
Qed.

Lemma emits_iff_has_text (raw : string) :
  nonempty raw && nonempty (strip raw) = has_text raw.
Proof.
  rewrite strip_nonempty. destruct raw; reflexivity.
Qed.

Lemma clean_loop_filter (lines cleaned_lines : list string) :
  clean_loop lines cleaned_lines
  = cleaned_lines ++ filter (fun l => nonempty l = true) (strip <$> lines).
Proof.
  revert cleaned_lines. induction lines as [|l lines IH]; intros acc.
  - cbn. rewrite app_nil_r. reflexivity.
  - cbn [clean_loop]. rewrite fmap_cons.
    destruct (nonempty (strip l)) eqn:E.
    + rewrite filter_cons_True by exact E. rewrite IH, <- app_assoc. reflexivity.
    + rewrite filter_cons_False by (rewrite E; discriminate). apply IH.
Qed.

Lemma extract_loop_pages (name : string) (pages : list (option string)) :
  forall (n : nat) (pages_data : list page_data),
    extract_loop name (Z.of_nat n) pages pages_data
    = pages_data ++ omap id (imap (fun j => page_of name (n + j)) pages).
Proof.
  induction pages as [|extracted rest IH]; intros n acc.
  - cbn. rewrite app_nil_r. reflexivity.
  - assert (imap (fun j => page_of name (n + j)) (extracted :: rest)
            = page_of name n extracted
              :: imap (fun j => page_of name (S n + j)) rest) as ->.
    { rewrite imap_cons, Nat.add_0_r. f_equal.
      apply imap_ext. intros j x _. cbn. f_equal. lia. }
    cbn [extract_loop omap list_omap].
    replace (Z.of_nat n + 1) with (Z.of_nat (S n)) by lia.
    destruct extracted as [raw|]; cbn [page_of id].
    + rewrite emits_iff_has_text. destruct (has_text raw).
      * rewrite IH, <- app_assoc. unfold _clean_text.
        rewrite clean_loop_filter. cbn.
        replace (Z.of_nat n + 1) with (Z.of_nat (S n)) by lia. reflexivity.
      * apply IH.
    + apply IH.
Qed.

(** C9, as stated, fails: the run of two spaces inside a line is not
    collapsed; the Page carries the line as it was. *)
Lemma C9_counterexample :
  exists p : page_data,
    extract_text_from_pdf "bio.pdf" [Some "cell  wall"] = [p] /\
    text p = "cell  wall" /\
    clean_text_spec "cell  wall" = "cell wall" /\
    text p <> clean_text_spec "cell  wall".
Proof.
  eexists. split; [vm_compute; reflexivity|].
  split; [reflexivity|]. split; [vm_compute; reflexivity|].
  vm_compute. discriminate.
Qed.

(** C9 (amended): the extractor emits a Page for a physical page exactly
    when its raw text contains a non-whitespace character, numbered from 1
    by position; the Page text is the raw text cut into lines at newlines,
    each line stripped of its leading and trailing whitespace (whitespace
    inside a line is kept as it is), blank lines dropped, the remaining lines
    joined by single spaces. *)
Theorem C9_extractor_pages (name : string) (pages : list (option string)) :
  extract_text_from_pdf name pages = omap id (imap (page_of name) pages) /\
  forall line : string,
    exists pre post,
      line = pre +:+ strip line +:+ post /\
      all_space pre = true /\ all_space post = true /\ trimmed (strip line).
Proof.
  split.
  - unfold extract_text_from_pdf.
    change 0 with (Z.of_nat 0). rewrite extract_loop_pages. reflexivity.
  - apply strip_spec.
Qed.


(** * Further properties of the code *)

(** ** Persistence and the life of the index *)

Lemma stored_vectors_run (st : store) :
  stored_vectors st
  = (Ok (match _index (loaded st) with
         | Some ix => Faiss.xb ix
         | None => []
         end), loaded st).
Proof.
  unfold stored_vectors. run_monad. rewrite ensure_loaded_run. reflexivity.
Qed.

(** X1: after an [add_to_index] that returns, the two files hold exactly the
    index and the log that are in memory, and a restarted process that loads
    them is in the very store the call left. *)
Theorem X1_add_persists_and_reloads
    (st : store) (e : ndarray) (ms : list dict) :
  outcome (add_to_index e ms) st = Ok () ->
  INDEX_PATH (after (add_to_index e ms) st)
  = _index (after (add_to_index e ms) st) /\
  METADATA_PATH (after (add_to_index e ms) st)
  = Some (_metadata (after (add_to_index e ms) st)) /\
  _index (after (add_to_index e ms) st) <> None /\
  after _ensure_loaded (restart (after (add_to_index e ms) st))
  = after (add_to_index e ms) st.
Proof.
  unfold outcome, after. rewrite add_to_index_run.
  destruct (_index (loaded st)) as [ix|].
  - case_decide; cbn; [|discriminate]. intros _. repeat split. discriminate.
  - cbn. intros _. repeat split. discriminate.
Qed.

Lemma X1_add_persists_and_reloads_witness :
  after _ensure_loaded (restart two_passages) = two_passages.
Proof.
  apply (X1_add_persists_and_reloads fresh
           (mk_ndarray 1 [[9 # 10]%Q; [15 # 10]%Q])
           [sample_chunk "a.pdf" 0; sample_chunk "b.pdf" 1]).
  reflexivity.
Defined.

(** X2: when the index is not in memory and one of the two files is
    missing, nothing is loaded, whatever the other file holds: the store
    stays as it is, [get_index_size] is 0 and [search] returns the empty
    list. *)
Theorem X2_lone_file_not_loaded (st : store) (q : ndarray) (k : Z) :
  _index st = None ->
  INDEX_PATH st = None \/ METADATA_PATH st = None ->
  after _ensure_loaded st = st /\
  outcome get_index_size st = Ok 0%nat /\
  outcome (search q k) st = Ok [].
Proof.
  intros Hix Hfile.
  assert (loaded st = st) as Hl.
  { destruct st as [[ix|] md [fi|] [fm|]]; cbn in *;
      try reflexivity; try discriminate; destruct Hfile; discriminate. }
  assert (outcome get_index_size st = Ok 0%nat) as Hsz.
  { unfold outcome. rewrite get_index_size_run, Hl. cbn.
    unfold index_size_of. rewrite Hix. reflexivity. }
  split; [|split].
  - unfold after. rewrite ensure_loaded_run. exact Hl.
  - exact Hsz.
  - unfold outcome in *. unfold search. run_monad.
    rewrite ensure_loaded_run, Hl, Hix. reflexivity.
Qed.

Lemma X2_lone_file_not_loaded_witness :
  outcome get_index_size
    {| _index := None; _metadata := [];
       INDEX_PATH := None;
       METADATA_PATH := Some [sample_chunk "a.pdf" 0] |} = Ok 0%nat.
Proof.
  refine (proj1 (proj2 (X2_lone_file_not_loaded _ (mk_ndarray 1 []) 5 _ _))).
  - reflexivity.
  - left. reflexivity.
Defined.

(** X3: the first [add_to_index] on the empty store fixes the width of the
    index at the width of that batch, and no later call, returning or
    raising, changes it. *)
Lemma add_to_index_keeps_width (st : store) (e : ndarray) (ms : list dict)
    (D : nat) :
  outcome index_width st = Ok (Some D) ->
  outcome index_width (after (add_to_index e ms) st) = Ok (Some D).
Proof.
  unfold outcome, after. rewrite !index_width_run, add_to_index_run. cbn.
  destruct (_index (loaded st)) as [ix|] eqn:E; cbn; [|discriminate].
  intros [= <-]. case_decide; cbn.
  - reflexivity.
  - rewrite loaded_idem, E. reflexivity.
Qed.

Lemma run_adds_keeps_width (adds : list (ndarray * list dict)) (st : store)
    (D : nat) :
  outcome index_width st = Ok (Some D) ->
  outcome index_width (run_adds adds st) = Ok (Some D).
Proof.
  revert st. induction adds as [|[e ms] adds IH]; intros st H; [exact H|].
  cbn. apply IH, add_to_index_keeps_width, H.
Qed.

Theorem X3_first_add_fixes_width
    (e0 : ndarray) (ms0 : list dict) (adds : list (ndarray * list dict)) :
  outcome index_width (run_adds ((e0, ms0) :: adds) fresh)
  = Ok (Some (shape1 e0)).
Proof.
  cbn. apply run_adds_keeps_width.
  unfold outcome, after. rewrite index_width_run, add_to_index_run. reflexivity.
Qed.

(** X4: the index is append-only. Whatever a sequence of [add_to_index]
    calls does to a store that has an index, the vectors it held stay where
    they were, as a prefix of the vectors held afterwards, and so do the
    entries of the metadata log. *)
Lemma add_to_index_appends (st : store) (e : ndarray) (ms : list dict)
    (ix : Faiss.IndexFlatL2) :
  _index (loaded st) = Some ix ->
  exists ix',
    _index (loaded (after (add_to_index e ms) st)) = Some ix' /\
    Faiss.xb ix `prefix_of` Faiss.xb ix' /\
    _metadata (loaded st)
      `prefix_of` _metadata (loaded (after (add_to_index e ms) st)).
Proof.
  intros E. rewrite add_to_index_loaded.
  unfold after. rewrite add_to_index_run, E.
  case_decide; cbn.
  - eexists. split; [reflexivity|]. cbn. split; apply prefix_app_r; reflexivity.
  - exists ix. rewrite E. repeat split; reflexivity.
Qed.

Theorem X4_index_is_append_only
    (adds : list (ndarray * list dict)) (st : store) (D : nat) :
  outcome index_width st = Ok (Some D) ->
  exists vs vs' log log',
    outcome stored_vectors st = Ok vs /\
    outcome stored_vectors (run_adds adds st) = Ok vs' /\
    outcome metadata_log st = Ok log /\
    outcome metadata_log (run_adds adds st) = Ok log' /\
    vs `prefix_of` vs' /\ log `prefix_of` log'.
Proof.
  unfold outcome. rewrite index_width_run. cbn.
  setoid_rewrite stored_vectors_run. setoid_rewrite metadata_log_run. cbn.
  destruct (_index (loaded st)) as [ix|] eqn:E; [|discriminate]. intros _.
  assert (exists ix',
            _index (loaded (run_adds adds st)) = Some ix' /\
            Faiss.xb ix `prefix_of` Faiss.xb ix' /\
            _metadata (loaded st) `prefix_of` _metadata (loaded (run_adds adds st)))
    as (ix' & E' & Hv & Hl).
  { clear D. revert st ix E. induction adds as [|[e ms] adds IH]; intros st ix E.
    - exists ix. repeat split; [exact E | reflexivity | reflexivity].
    - cbn [run_adds foldl].
      destruct (add_to_index_appends st e ms ix E) as (ix1 & E1 & Hv1 & Hl1).
      destruct (IH _ ix1 E1) as (ix2 & E2 & Hv2 & Hl2).
      exists ix2. split; [exact E2|]. split; etrans; eassumption. }
  rewrite E'. do 4 eexists. repeat split; assumption.
Qed.

Lemma X4_index_is_append_only_witness :
  exists vs' log',
    outcome stored_vectors
      (run_adds [(mk_ndarray 2 [], []); (mk_ndarray 1 [vec1 7], [])]
         two_passages) = Ok vs' /\
    outcome metadata_log
      (run_adds [(mk_ndarray 2 [], []); (mk_ndarray 1 [vec1 7], [])]
         two_passages) = Ok log' /\
    [[9 # 10]%Q; [15 # 10]%Q] `prefix_of` vs' /\
    [sample_chunk "a.pdf" 0; sample_chunk "b.pdf" 1] `prefix_of` log'.
Proof.
  destruct (X4_index_is_append_only
              [(mk_ndarray 2 [], []); (mk_ndarray 1 [vec1 7], [])]
              two_passages 1 eq_refl)
    as (vs & vs' & log & log' & Hvs & Hvs' & Hlog & Hlog' & Hp1 & Hp2).
  injection Hvs as <-. injection Hlog as <-.
  exists vs', log'. repeat split; assumption.
Defined.

(** X5: on a store with no index to load (as after [clear_index]),
    [add_to_index] accepts a batch of any width and starts over: it returns,
    the index has the width of the batch and holds exactly its vectors, and
    the log is exactly the entries offered, anything [_metadata] still held
    being dropped. *)
Theorem X5_add_without_index_starts_over
    (st : store) (e : ndarray) (ms : list dict) :
  outcome index_width st = Ok None ->
  outcome (add_to_index e ms) st = Ok () /\
  outcome index_width (after (add_to_index e ms) st) = Ok (Some (shape1 e)) /\
  outcome stored_vectors (after (add_to_index e ms) st) = Ok (data e) /\
  outcome metadata_log (after (add_to_index e ms) st) = Ok ms.
Proof.
  unfold outcome, after.
  rewrite !index_width_run, stored_vectors_run, metadata_log_run,
    add_to_index_run. cbn.
  destruct (_index (loaded st)) as [ix|]; cbn; [discriminate|].
  intros _. repeat split.
Qed.

Lemma X5_add_without_index_starts_over_witness :
  outcome index_width
    (after (add_to_index (mk_ndarray 3 [[1 # 1; 2 # 1; 3 # 1]%Q])
              [sample_chunk "c.pdf" 0])
       (after clear_index two_passages)) = Ok (Some 3%nat).
Proof.
  refine (proj1 (proj2 (X5_add_without_index_starts_over
                          (after clear_index two_passages)
                          (mk_ndarray 3 [[1 # 1; 2 # 1; 3 # 1]%Q])
                          [sample_chunk "c.pdf" 0] _))).
  reflexivity.
Defined.

(** X6: after an [add_to_index] that returns, [get_indexed_pdfs] lists the
    [pdf_name] of every entry offered (the empty string for an entry
    without one) and, when there was an index before, every name listed
    before. *)
Theorem X6_indexed_pdfs_after_add
    (st : store) (e : ndarray) (ms : list dict) :
  outcome (add_to_index e ms) st = Ok () ->
  exists names,
    outcome get_indexed_pdfs (after (add_to_index e ms) st) = Ok names /\
    (forall m : dict, m ∈ ms -> default (VStr "") (m !! "pdf_name") ∈ names) /\
    (forall old,
        outcome index_width st <> Ok None ->
        outcome get_indexed_pdfs st = Ok old -> old ⊆ names).
Proof.
  intros Hok.
  assert (forall s : store,
            outcome get_indexed_pdfs s
            = Ok (list_to_set
                    ((fun m : dict => default (VStr "") (m !! "pdf_name"))
                       <$> _metadata (loaded s)))) as Hrun.
  { intros s. unfold outcome, get_indexed_pdfs. run_monad.
    rewrite ensure_loaded_run. destruct (_metadata (loaded s)); reflexivity. }
  eexists. split; [apply Hrun|].
  rewrite add_to_index_loaded.
  revert Hok. unfold outcome, after. rewrite add_to_index_run, index_width_run.
  cbn. destruct (_index (loaded st)) as [ix|] eqn:E.
  - case_decide; cbn; [|discriminate]. intros _. split.
    + intros m Hm. apply elem_of_list_to_set, list_elem_of_fmap.
      exists m. split; [reflexivity|]. apply elem_of_app. right. exact Hm.
    + intros old _ Hold. pose proof (Hrun st) as H'. unfold outcome in H'.
      rewrite H' in Hold. injection Hold as <-.
      intros v Hv. apply elem_of_list_to_set in Hv.
      apply elem_of_list_to_set. rewrite fmap_app. apply elem_of_app.
      left. exact Hv.
  - cbn. intros _. split.
    + intros m Hm. apply elem_of_list_to_set, list_elem_of_fmap.
      exists m. split; [reflexivity | exact Hm].
    + intros old Hne. congruence.
Qed.

Lemma X6_indexed_pdfs_after_add_witness :
  exists names,
    outcome get_indexed_pdfs two_passages = Ok names /\
    VStr "a.pdf" ∈ names /\ VStr "b.pdf" ∈ names.
Proof.
  destruct (X6_indexed_pdfs_after_add fresh
              (mk_ndarray 1 [[9 # 10]%Q; [15 # 10]%Q])
              [sample_chunk "a.pdf" 0; sample_chunk "b.pdf" 1] eq_refl)
    as (names & Hn & Hin & _).
  exists names. split; [exact Hn|]. split.
  - apply (Hin (sample_chunk "a.pdf" 0)). apply list_elem_of_here.
  - apply (Hin (sample_chunk "b.pdf" 1)).
    apply list_elem_of_further, list_elem_of_here.
Defined.

(** ** What [search] returns *)

Lemma py_getitem_in_range {A} (l : list A) (i : Z) :
  0 <= i < Z.of_nat (length l) ->
  exists a, l !! Z.to_nat i = Some a /\ py_getitem l i = Ok a.
Proof.
  intros Hi. destruct (lookup_lt_is_Some_2 l (Z.to_nat i)) as [a Ha]; [lia|].
  exists a. split; [exact Ha|]. unfold py_getitem.
  destruct (i <? 0) eqn:E; [lia|].
  destruct ((0 <=? i) && (i <? Z.of_nat (length l))) eqn:E'; [|lia].
  rewrite Ha. reflexivity.
Qed.

Lemma py_getitem_head {A} (x : A) (l : list A) : py_getitem (x :: l) 0 = Ok x.
Proof.
  destruct (py_getitem_in_range (x :: l) 0) as (a & Ha & ->);
    [cbn [length]; lia|].
  change (Z.to_nat 0) with 0%nat in Ha. cbn in Ha. congruence.
Qed.

Lemma search_loop_omap (n : nat) (md : list dict) (hits : list (Q * Z)) :
  Forall (fun h : Q * Z => label_ok n h.2) hits ->
  forall acc, search_loop md hits acc = Ok (acc ++ omap (hit_entry md) hits).
Proof.
  induction 1 as [|[dist idx] rest Hh Hrest IH]; intros acc; cbn.
  - rewrite app_nil_r. reflexivity.
  - unfold hit_entry at 1. cbn.
    destruct (idx =? -1) eqn:E1; [apply IH|].
    destruct Hh as [Hh|Hh]; cbn in Hh; [lia|].
    destruct (idx <? Z.of_nat (length md)) eqn:E2.
    + destruct (py_getitem_in_range md idx) as (m & Hm & ->); [lia|].
      rewrite Hm. cbn. rewrite IH, <- app_assoc. reflexivity.
    + rewrite (lookup_ge_None_2 md (Z.to_nat idx)) by lia. cbn. apply IH.
Qed.

Lemma omap_padding (md : list dict) (n : nat) :
  omap (hit_entry md) (replicate n (Faiss.FLT_MAX, -1)) = [].
Proof. induction n as [|n IH]; [reflexivity | exact IH]. Qed.

(** [search] in one step. *)
Lemma search_outcome (q : ndarray) (k : Z) (st : store) :
  outcome (search q k) st
  = match _index (loaded st) with
    | None => Ok []
    | Some ix =>
        if decide (Faiss.ntotal ix = 0%nat) then Ok []
        else if decide (shape1 q = Faiss.d ix) then
          if decide (0 < k) then
            match data q with
            | [] => Raise IndexError
            | q0 :: _ =>
                Ok (omap (hit_entry (_metadata (loaded st)))
                      (take (Z.to_nat k)
                         (Faiss.sort_hits (Faiss.scan q0 (Faiss.xb ix)))))
            end
          else Raise AssertionError
        else Raise AssertionError
    end.
Proof.
  unfold search. run_monad. rewrite ensure_loaded_run.
  destruct (_index (loaded st)) as [ix|]; cbn; [|reflexivity].
  case_decide; [reflexivity|]. cbn. unfold Faiss.search.
  case_decide; [|reflexivity]. case_decide; [|reflexivity].
  destruct (data q) as [|q0 rows]; [reflexivity|]. cbn.
  rewrite py_getitem_head. cbn [bind_result].
  rewrite py_getitem_head. cbn [bind_result].
  rewrite zip_fst_snd.
  rewrite (search_loop_omap (length (Faiss.xb ix))) by apply knn_labels.
  cbn. unfold Faiss.knn. rewrite omap_app, omap_padding, app_nil_r.
  reflexivity.
Qed.

Lemma omap_hits_length (md : list dict) (hits : list (Q * Z)) :
  (length (omap (hit_entry md) hits) <= length hits)%nat.
Proof.
  induction hits as [|h hits IH]; cbn; [lia|].
  destruct (hit_entry md h); cbn; lia.
Qed.

Lemma search_length_le
    (st : store) (q : ndarray) (k : Z) (res : list (dict * Q)) :
  outcome (search q k) st = Ok res ->
  (length res <= Z.to_nat k)%nat.
Proof.
  rewrite search_outcome.
  destruct (_index (loaded st)) as [ix|]; [|intros [= <-]; cbn; lia].
  case_decide; [intros [= <-]; cbn; lia|].
  case_decide; [|discriminate]. case_decide; [|discriminate].
  destruct (data q) as [|q0 rows]; [discriminate|]. intros [= <-].
  etrans; [apply omap_hits_length|]. rewrite length_take. lia.
Qed.

(** X7: [search] never returns more than [top_k] results; a [top_k] of zero
    or less yields no result at all (the empty list on an empty index, an
    exception otherwise). *)
Theorem X7_search_at_most_top_k
    (st : store) (q : ndarray) (k : Z) (res : list (dict * Q)) :
  outcome (search q k) st = Ok res ->
  (length res <= Z.to_nat k)%nat.
Proof. apply search_length_le. Qed.

Lemma X7_search_at_most_top_k_witness :
  (length (match outcome (search (mk_ndarray 1 [vec1 0]) 1) two_passages with
           | Ok r => r | Raise _ => [] end) <= 1)%nat.
Proof.
  destruct (outcome (search (mk_ndarray 1 [vec1 0]) 1) two_passages)
    as [r|e] eqn:E.
  - exact (X7_search_at_most_top_k two_passages (mk_ndarray 1 [vec1 0]) 1 r E).
  - cbn. lia.
Defined.

Lemma insert_hit_sorted (h : Q * Z) (hs : list (Q * Z)) :
  StronglySorted by_distance hs ->
  StronglySorted by_distance (Faiss.insert_hit h hs).
Proof.
  induction 1 as [|h' tl Htl IH Hall]; cbn.
  - repeat constructor.
  - destruct (Qle_bool h'.1 h.1) eqn:E.
    + constructor; [exact IH|].
      apply insert_hit_Forall; [|exact Hall].
      apply Qle_bool_iff. exact E.
    + assert (by_distance h h') as Hlt.
      { unfold by_distance. apply Qlt_le_weak, Qnot_le_lt.
        intros Hle. apply Qle_bool_iff in Hle. congruence. }
      constructor; [constructor; assumption|].
      constructor; [exact Hlt|].
      eapply Forall_impl; [exact Hall|].
      intros x Hx. unfold by_distance in *. eapply Qle_trans; eassumption.
Qed.

Lemma sort_hits_sorted (hs : list (Q * Z)) :
  StronglySorted by_distance (Faiss.sort_hits hs).
Proof.
  unfold Faiss.sort_hits. induction hs as [|h hs IH]; cbn.
  - constructor.
  - apply insert_hit_sorted, IH.
Qed.

Lemma omap_hits_Forall (md : list dict) (P : Q -> Prop) (hits : list (Q * Z)) :
  Forall (fun h : Q * Z => P h.1) hits ->
  Forall (fun r : dict * Q => P r.2) (omap (hit_entry md) hits).
Proof.
  induction 1 as [|h tl Hh Htl IH]; cbn; [constructor|].
  unfold hit_entry at 1. destruct (h.2 =? -1); [exact IH|].
  destruct (md !! Z.to_nat h.2); cbn; [|exact IH].
  constructor; [exact Hh | exact IH].
Qed.

Lemma omap_hits_sorted (md : list dict) (hits : list (Q * Z)) :
  StronglySorted by_distance hits ->
  StronglySorted Qle ((omap (hit_entry md) hits).*2).
Proof.
  induction 1 as [|h tl Htl IH Hall]; cbn; [constructor|].
  unfold hit_entry at 1. destruct (h.2 =? -1); [exact IH|].
  destruct (md !! Z.to_nat h.2); cbn; [|exact IH].
  constructor; [exact IH|].
  apply Forall_fmap.
  exact (omap_hits_Forall md (fun x => (h.1 <= x)%Q) tl Hall).
Qed.

Lemma search_sorted
    (st : store) (q : ndarray) (k : Z) (res : list (dict * Q)) :
  outcome (search q k) st = Ok res ->
  StronglySorted Qle (res.*2).
Proof.
  rewrite search_outcome.
  destruct (_index (loaded st)) as [ix|]; [|intros [= <-]; constructor].
  case_decide; [intros [= <-]; constructor|].
  case_decide; [|discriminate]. case_decide; [|discriminate].
  destruct (data q) as [|q0 rows]; [discriminate|]. intros [= <-].
  apply omap_hits_sorted.
  eapply StronglySorted_app_1_l. rewrite take_drop. apply sort_hits_sorted.
Qed.

(** X8: the results of [search] come in ascending order of distance,
    nearest first. *)
Theorem X8_search_nearest_first
    (st : store) (q : ndarray) (k : Z) (res : list (dict * Q)) :
  outcome (search q k) st = Ok res ->
  StronglySorted Qle (res.*2).
Proof. apply search_sorted. Qed.

Lemma X8_search_nearest_first_witness :
  StronglySorted Qle
    ((match outcome (search (mk_ndarray 1 [vec1 1]) 5) two_passages with
      | Ok r => r | Raise _ => [] end).*2).
Proof.
  destruct (outcome (search (mk_ndarray 1 [vec1 1]) 5) two_passages)
    as [r|e] eqn:E.
  - exact (X8_search_nearest_first two_passages (mk_ndarray 1 [vec1 1]) 5 r E).
  - constructor.
Defined.




Lemma scan_positions (q : list Q) (vs : list (list Q)) :
  Forall (fun h : Q * Z =>
            exists (i : nat) (v : list Q),
              vs !! i = Some v /\ h = (Faiss.l2sqr q v, Z.of_nat i))
         (Faiss.scan q vs).
Proof.
  apply Forall_forall. intros h Hin.
  apply elem_of_lookup_imap in Hin as (i & v & -> & Hi). eauto.
Qed.



Lemma omap_hits_positions (md : list dict) (vs : list (list Q)) (q0 : list Q)
    (hits : list (Q * Z)) :
  Forall (fun h : Q * Z =>
            exists (i : nat) (v : list Q),
              vs !! i = Some v /\ h = (Faiss.l2sqr q0 v, Z.of_nat i)) hits ->
  Forall (fun r : dict * Q =>
            exists (i : nat) (v : list Q),
              md !! i = Some r.1 /\ vs !! i = Some v /\
              r.2 = Faiss.l2sqr q0 v)
         (omap (hit_entry md) hits).
Proof.
  induction 1 as [|h tl Hh Htl IH]; cbn; [constructor|].
  unfold hit_entry at 1. destruct (h.2 =? -1); [exact IH|].
  destruct (md !! Z.to_nat h.2) as [m|] eqn:Em; cbn; [|exact IH].
  constructor; [|exact IH].
  destruct Hh as (i & v & Hi & ->). cbn in *.
  rewrite Nat2Z.id in Em. exists i, v. auto.
Qed.

(** X10: [search] pairs positions, not contents: every result is the log
    entry at some position together with the squared Euclidean distance from
    the first row of the query to the vector stored at that same
    position. *)
Theorem X10_search_pairs_by_position
    (st : store) (q : ndarray) (k : Z) (res : list (dict * Q))
    (q0 : list Q) (vs : list (list Q)) (log : list dict) :
  outcome (search q k) st = Ok res ->
  head (data q) = Some q0 ->
  outcome stored_vectors st = Ok vs ->
  outcome metadata_log st = Ok log ->
  Forall (fun r : dict * Q =>
            exists (i : nat) (v : list Q),
              log !! i = Some r.1 /\ vs !! i = Some v /\
              r.2 = Faiss.l2sqr q0 v) res.
Proof.
  rewrite search_outcome. unfold outcome.
  rewrite stored_vectors_run, metadata_log_run. cbn.
  intros Hres Hq [= <-] [= <-].
  destruct (_index (loaded st)) as [ix|]; [|injection Hres as <-; constructor].
  case_decide; [injection Hres as <-; constructor|].
  case_decide; [|discriminate]. case_decide; [|discriminate].
  destruct (data q) as [|q0' rows]; [discriminate|].
  injection Hq as ->. injection Hres as <-.
  apply omap_hits_positions, Forall_take, sort_hits_Forall, scan_positions.
Qed.

Lemma X10_search_pairs_by_position_witness :
  Forall (fun r : dict * Q =>
            exists (i : nat) (v : list Q),
              [sample_chunk "a.pdf" 0; sample_chunk "b.pdf" 1] !! i = Some r.1 /\
              [[9 # 10]%Q; [15 # 10]%Q] !! i = Some v /\
              r.2 = Faiss.l2sqr (vec1 1) v)
    (match outcome (search (mk_ndarray 1 [vec1 1]) 5) two_passages with
     | Ok r => r | Raise _ => [] end).
Proof.
  destruct (outcome (search (mk_ndarray 1 [vec1 1]) 5) two_passages)
    as [r|e] eqn:E.
  - apply (X10_search_pairs_by_position two_passages (mk_ndarray 1 [vec1 1])
             5 r (vec1 1) _ _ E); reflexivity.
  - constructor.
Defined.

(** ** What [retrieve] returns *)

Lemma quota_positive (top_k : Z) :
  0 < top_k -> quota top_k 0 = Z.to_nat top_k.
Proof. unfold quota. lia. Qed.

Lemma fetch_k_nonpositive (top_k : Z) (f : option string) :
  top_k <= 0 -> fetch_k top_k f <= 0.
Proof. unfold fetch_k. destruct (truthy f); lia. Qed.

(** X11: [retrieve] never returns more than [top_k] passages, although it
    fetches three times as many candidates under a source filter and tests
    the count only after appending. *)
Theorem X11_retrieve_at_most_top_k
    (embed : string -> ndarray) (st : store) (query : string) (top_k : Z)
    (t : Q) (f : option string) (res : list dict) :
  outcome (retrieve embed query top_k t f) st = Ok res ->
  (length res <= Z.to_nat top_k)%nat.
Proof.
  rewrite retrieve_run.
  destruct (outcome (search _ _) st) as [raw|e] eqn:E; [|discriminate].
  intros [= <-]. rewrite length_take.
  destruct (decide (0 < top_k)) as [Hk|Hk].
  - rewrite quota_positive by exact Hk. lia.
  - apply search_length_le in E.
    pose proof (fetch_k_nonpositive top_k f ltac:(lia)).
    destruct raw; [cbn; lia | cbn in E; lia].
Qed.

Lemma X11_retrieve_at_most_top_k_witness :
  (length (match outcome (retrieve origin_query "light reaction" 1 (3 # 1)
                            None) two_passages with
           | Ok r => r | Raise _ => [] end) <= 1)%nat.
Proof.
  destruct (outcome (retrieve origin_query "light reaction" 1 (3 # 1) None)
              two_passages) as [r|e] eqn:E.
  - exact (X11_retrieve_at_most_top_k origin_query two_passages
             "light reaction" 1 (3 # 1) None r E).
  - cbn. lia.
Defined.

(** X12: every passage [retrieve] returns is an entry of the metadata log
    with the one key [score] set to the rounded distance, and that distance
    is within the threshold: nothing is invented and nothing beyond the
    threshold gets through. *)
Theorem X12_retrieve_returns_log_entries
    (embed : string -> ndarray) (st : store) (query : string) (top_k : Z)
    (t : Q) (f : option string) (res : list dict) (log : list dict) :
  outcome (retrieve embed query top_k t f) st = Ok res ->
  outcome metadata_log st = Ok log ->
  Forall (fun p : dict =>
            exists (i : nat) (m : dict) (dist : Q),
              log !! i = Some m /\ (dist <= t)%Q /\
              p = <["score" := VFloat (py_round4 dist)]> m) res.
Proof.
  rewrite retrieve_run. unfold outcome at 2. rewrite metadata_log_run. cbn.
  destruct (outcome (search _ _) st) as [raw|e] eqn:E; [|discriminate].
  intros [= <-] [= <-].
  destruct (search_run (embed query) (fetch_k top_k f) st) as [_ Hrange].
  specialize (Hrange raw E).
  apply Forall_take, Forall_fmap, Forall_forall.
  intros [m dist] Hin. apply list_elem_of_filter in Hin as [Hp Hin].
  eapply Forall_forall in Hrange; [|exact Hin].
  destruct Hrange as (i & _ & Hi). cbn in Hi.
  exists i, m, dist. split; [exact Hi|]. split; [|reflexivity].
  unfold passes in Hp. apply andb_true_iff in Hp as [Hp _].
  apply Qle_bool_iff. exact Hp.
Qed.

Lemma X12_retrieve_returns_log_entries_witness :
  Forall (fun p : dict =>
            exists (i : nat) (m : dict) (dist : Q),
              [sample_chunk "a.pdf" 0; sample_chunk "b.pdf" 1] !! i = Some m /\
              (dist <= 3 # 1)%Q /\
              p = <["score" := VFloat (py_round4 dist)]> m)
    (match outcome (retrieve origin_query "light reaction" 5 (3 # 1) None)
             two_passages with
     | Ok r => r | Raise _ => [] end).
Proof.
  destruct (outcome (retrieve origin_query "light reaction" 5 (3 # 1) None)
              two_passages) as [r|e] eqn:E.
  - apply (X12_retrieve_returns_log_entries origin_query two_passages
             "light reaction" 5 (3 # 1) None r _ E). reflexivity.
  - constructor.
Defined.

(** X13: on an empty index [retrieve] returns the empty list for every
    query, [top_k] (zero and negative included), threshold and source
    filter, and leaves the persisted files alone. *)
Theorem X13_retrieve_on_empty_index
    (embed : string -> ndarray) (st : store) (query : string) (top_k : Z)
    (t : Q) (f : option string) :
  outcome get_index_size st = Ok 0%nat ->
  outcome (retrieve embed query top_k t f) st = Ok [] /\
  INDEX_PATH (after (retrieve embed query top_k t f) st) = INDEX_PATH st /\
  METADATA_PATH (after (retrieve embed query top_k t f) st) = METADATA_PATH st.
Proof.
  unfold outcome at 1. rewrite get_index_size_run. cbn. intros [= Hn].
  assert (search (embed query) (fetch_k top_k f) st = (Ok [], loaded st)) as Hs.
  { unfold search. run_monad. rewrite ensure_loaded_run.
    unfold index_size_of in Hn.
    destruct (_index (loaded st)) as [ix|]; cbn; [|reflexivity].
    case_decide; [reflexivity | congruence]. }
  unfold outcome, after, retrieve. run_monad. rewrite Hs. cbn.
  split; [reflexivity|].
  destruct st as [[ix|] md [fi|] [fm|]]; split; reflexivity.
Qed.

Lemma X13_retrieve_on_empty_index_witness :
  outcome (retrieve origin_query "light reaction" (-2) (3 # 1) (Some "a.pdf"))
    (after clear_index two_passages) = Ok [].
Proof.
  refine (proj1 (X13_retrieve_on_empty_index origin_query
                   (after clear_index two_passages) "light reaction" (-2)
                   (3 # 1) (Some "a.pdf") _)).
  reflexivity.
Defined.

(** ** Rounding of scores *)




Lemma py_round4_mono (x y : Q) :
  (x <= y)%Q -> (py_round4 x <= py_round4 y)%Q.
Proof.
  intros Hxy. unfold py_round4. cbv zeta.
  assert (x * (10000 # 1) <= y * (10000 # 1))%Q as Hs by lra.
  set (a := (x * (10000 # 1))%Q) in *. set (b := (y * (10000 # 1))%Q) in *.
  pose proof (Qfloor_resp_le a b Hs) as Hf.
  pose proof (Qfloor_le a) as Ha. pose proof (Qlt_floor a) as Ha'.
  pose proof (Qfloor_le b) as Hb. pose proof (Qlt_floor b) as Hb'.
  change (Qfloor a # 1) with (inject_Z (Qfloor a)).
  change (Qfloor b # 1) with (inject_Z (Qfloor b)).
  assert (forall n m : Z, n <= m -> (n # 10000 <= m # 10000)%Q) as Hq.
  { intros n m Hnm. unfold Qle. cbn. lia. }
  destruct (Z.eq_dec (Qfloor a) (Qfloor b)) as [Heq|Hne].
  - rewrite <- Heq in *.
    destruct (Qcompare_spec (a - inject_Z (Qfloor a)) (1 # 2)) as [He|Hl|Hg];
      destruct (Qcompare_spec (b - inject_Z (Qfloor a)) (1 # 2)) as [He'|Hl'|Hg'];
      try (exfalso; lra); try (apply Hq; destruct (Z.even (Qfloor a)); lia).
  - assert (Qfloor a + 1 <= Qfloor b) as Hlt by lia.
    apply Hq.
    destruct ((a - inject_Z (Qfloor a)) ?= 1 # 2)%Q;
      destruct ((b - inject_Z (Qfloor b)) ?= 1 # 2)%Q;
      destruct (Z.even (Qfloor a)); destruct (Z.even (Qfloor b)); lia.
Qed.

Lemma sorted_filter {A} (R : relation A) (P : A -> Prop)
    `{!forall x, Decision (P x)} (l : list A) :
  StronglySorted R l -> StronglySorted R (filter P l).
Proof.
  induction 1 as [|x l Hl IH Hall]; [constructor|].
  rewrite filter_cons. case_decide; [|exact IH].
  constructor; [exact IH|].
  apply Forall_forall. intros y Hy. apply list_elem_of_filter in Hy as [_ Hy].
  eapply Forall_forall in Hall; eauto.
Qed.

Lemma sorted_by_snd {A} (l : list (A * Q)) :
  StronglySorted Qle (l.*2) ->
  StronglySorted (fun a b : A * Q => (a.2 <= b.2)%Q) l.
Proof.
  induction l as [|a l IH]; [constructor|].
  cbn. intros H. apply StronglySorted_inv in H as [Hl Hall].
  constructor; [apply IH, Hl|].
  rewrite Forall_fmap in Hall. exact Hall.
Qed.

(** X15: the passages [retrieve] returns come in ascending order of score:
    filtering, truncating and rounding keep the nearest-first order of the
    index. *)
Theorem X15_retrieve_scores_ascending
    (embed : string -> ndarray) (st : store) (query : string) (top_k : Z)
    (t : Q) (f : option string) (res : list dict) :
  outcome (retrieve embed query top_k t f) st = Ok res ->
  exists scores : list Q,
    (fun p : dict => p !! "score") <$> res
    = (fun x => Some (VFloat x)) <$> scores /\
    StronglySorted Qle scores.
Proof.
  rewrite retrieve_run.
  destruct (outcome (search _ _) st) as [raw|e] eqn:E; [|discriminate].
  intros [= <-]. apply search_sorted, sorted_by_snd in E.
  set (kept := take (quota top_k 0)
                 (filter (fun r => passes t f r = true) raw)).
  exists ((fun r : dict * Q => py_round4 r.2) <$> kept). split.
  - rewrite <- fmap_take. fold kept. rewrite <- !list_fmap_compose.
    apply list_fmap_ext. intros i [m dist] _. cbn. unfold passage. cbn.
    apply lookup_insert_eq.
  - eapply StronglySorted_fmap; [|].
    + intros a b Hab. apply py_round4_mono. exact Hab.
    + unfold kept. eapply StronglySorted_app_1_l. rewrite take_drop.
      apply sorted_filter. exact E.
Qed.

Lemma X15_retrieve_scores_ascending_witness :
  exists scores : list Q,
    (fun p : dict => p !! "score")
      <$> (match outcome (retrieve origin_query "light reaction" 5 (3 # 1)
                            None) two_passages with
           | Ok r => r | Raise _ => [] end)
    = (fun x => Some (VFloat x)) <$> scores /\
    StronglySorted Qle scores.
Proof.
  destruct (outcome (retrieve origin_query "light reaction" 5 (3 # 1) None)
              two_passages) as [r|e] eqn:E.
  - exact (X15_retrieve_scores_ascending origin_query two_passages
             "light reaction" 5 (3 # 1) None r E).
  - exists []. split; [reflexivity | constructor].
Defined.

(** ** What cleaning keeps and what it leaves *)

Lemma chars_append (a b : string) : chars (a +:+ b) = chars a ++ chars b.
Proof.
  induction a as [|c a IH]; [reflexivity|].
  rewrite append_String. cbn. rewrite IH. reflexivity.
Qed.

Lemma visible_append (a b : string) :
  visible (a +:+ b) = visible a ++ visible b.
Proof. unfold visible. rewrite chars_append, filter_app. reflexivity. Qed.

Lemma visible_all_space (s : string) :
  all_space s = true <-> visible s = [].
Proof.
  unfold visible. induction s as [|c s IH]; cbn [chars all_space];
    [split; reflexivity|].
  rewrite filter_cons. destruct (is_space c) eqn:E; cbn [andb].
  - rewrite decide_False by discriminate. exact IH.
  - rewrite decide_True by reflexivity. split; discriminate.
Qed.

Lemma visible_strip (s : string) : visible (strip s) = visible s.
Proof.
  destruct (strip_spec s) as (pre & post & Hs & Hpre & Hpost & _).
  rewrite Hs at 2. rewrite !visible_append.
  apply visible_all_space in Hpre, Hpost. rewrite Hpre, Hpost, app_nil_r.
  reflexivity.
Qed.

Lemma visible_join_space (ls : list string) :
  visible (join " " ls) = concat (visible <$> ls).
Proof.
  induction ls as [|x [|y tl] IH]; [reflexivity| |].
  - cbn. rewrite app_nil_r. reflexivity.
  - change (join " " (x :: y :: tl)) with (x +:+ " " +:+ join " " (y :: tl)).
    rewrite !visible_append, IH. reflexivity.
Qed.

Lemma visible_split_lines (t : string) :
  concat (visible <$> split_lines t) = visible t.
Proof.
  induction t as [|c t IH]; [reflexivity|].
  cbn [split_lines]. destruct (Ascii.eqb c newline) eqn:E.
  - apply Ascii.eqb_eq in E. subst c. cbn [fmap list_fmap concat].
    rewrite IH. reflexivity.
  - unfold visible at 2. cbn [chars]. rewrite filter_cons.
    fold (visible t). rewrite <- IH.
    destruct (split_lines t) as [|l ls]; cbn [fmap list_fmap concat];
      unfold visible at 1; cbn [chars]; rewrite filter_cons;
      case_decide; cbn; rewrite ?app_nil_r; reflexivity.
Qed.

Lemma visible_drop_blank (ls : list string) :
  concat (visible <$> filter (fun l => nonempty l = true) ls)
  = concat (visible <$> ls).
Proof.
  induction ls as [|l ls IH]; [reflexivity|].
  rewrite filter_cons. case_decide as Hl; cbn; rewrite IH; [reflexivity|].
  destruct l; [reflexivity | cbn in Hl; congruence].
Qed.

Lemma clean_text_lines (t : string) :
  _clean_text t
  = join " " (filter (fun l => nonempty l = true) (strip <$> split_lines t)).
Proof. unfold _clean_text. rewrite clean_loop_filter. reflexivity. Qed.

Lemma clean_text_visible (t : string) : visible (_clean_text t) = visible t.
Proof.
  rewrite clean_text_lines, visible_join_space, visible_drop_blank.
  rewrite <- list_fmap_compose, <- visible_split_lines.
  f_equal. apply list_fmap_ext. intros i l _. cbn. apply visible_strip.
Qed.

(** X16: cleaning loses no text: the non-whitespace characters of the
    cleaned text are those of the raw text, in the same order. *)
Theorem X16_clean_text_keeps_characters (t : string) :
  visible (_clean_text t) = visible t.
Proof. apply clean_text_visible. Qed.

Lemma split_lines_no_newline (t : string) :
  Forall no_newline (split_lines t).
Proof.
  induction t as [|c t IH]; cbn [split_lines].
  - repeat constructor.
  - destruct (Ascii.eqb c newline) eqn:E.
    + constructor; [constructor | exact IH].
    + apply Ascii.eqb_neq in E.
      destruct (split_lines t) as [|l ls].
      * repeat constructor. exact E.
      * apply Forall_cons in IH as [Hl Hls].
        constructor; [|exact Hls]. constructor; assumption.
Qed.

Lemma strip_no_newline (s : string) : no_newline s -> no_newline (strip s).
Proof.
  destruct (strip_spec s) as (pre & post & Hs & _).
  unfold no_newline. rewrite Hs at 1. rewrite !chars_append, !Forall_app.
  tauto.
Qed.

Lemma join_space_no_newline (ls : list string) :
  Forall no_newline ls -> no_newline (join " " ls).
Proof.
  induction ls as [|x [|y tl] IH]; intros H.
  - constructor.
  - apply Forall_cons in H as [H _]. exact H.
  - change (join " " (x :: y :: tl)) with (x +:+ " " +:+ join " " (y :: tl)).
    apply Forall_cons in H as [Hx Htl].
    unfold no_newline in *. rewrite !chars_append, !Forall_app.
    split; [exact Hx|]. split; [|apply IH, Htl].
    repeat constructor. discriminate.
Qed.

Lemma first_char_append (a b : string) :
  a <> EmptyString -> first_char (a +:+ b) = first_char a.
Proof. destruct a; [congruence | reflexivity]. Qed.

Lemma last_char_append (a b : string) :
  b <> EmptyString -> last_char (a +:+ b) = last_char b.
Proof.
  intros Hb. induction a as [|c a IH]; [reflexivity|].
  rewrite append_String. cbn [last_char]. rewrite IH.
  destruct (a +:+ b) eqn:E; [|reflexivity].
  destruct a; [rewrite append_empty in E; congruence | discriminate].
Qed.

Lemma append_nonempty_r (a b : string) :
  b <> EmptyString -> a +:+ b <> EmptyString.
Proof.
  destruct a; [rewrite append_empty; auto | discriminate].
Qed.

Lemma join_space_trimmed (ls : list string) :
  Forall (fun l => l <> EmptyString /\ trimmed l) ls ->
  trimmed (join " " ls) /\ (ls <> [] -> join " " ls <> EmptyString).
Proof.
  induction ls as [|x [|y tl] IH]; intros H.
  - split; [split; discriminate | congruence].
  - apply Forall_cons in H as [[Hx Ht] _]. split; [exact Ht | auto].
  - change (join " " (x :: y :: tl)) with (x +:+ " " +:+ join " " (y :: tl)).
    apply Forall_cons in H as [[Hx [Hxf Hxl]] Htl].
    destruct (IH Htl) as [[Hjf Hjl] Hne].
    assert (join " " (y :: tl) <> EmptyString) as Hj by (apply Hne; discriminate).
    split; [split|].
    + rewrite first_char_append by exact Hx. exact Hxf.
    + rewrite !last_char_append; [exact Hjl | exact Hj |].
      apply append_nonempty_r, Hj.
    + intros _. apply append_nonempty_r, append_nonempty_r, Hj.
Qed.

Lemma strip_trimmed (s : string) : trimmed (strip s).
Proof. destruct (strip_spec s) as (? & ? & _ & _ & _ & H). exact H. Qed.

Lemma cleaned_lines_trimmed (ls : list string) :
  Forall (fun l => l <> EmptyString /\ trimmed l)
         (filter (fun l => nonempty l = true) (strip <$> ls)).
Proof.
  apply Forall_forall. intros l Hl.
  apply list_elem_of_filter in Hl as [Hne Hl].
  apply list_elem_of_fmap in Hl as (l0 & -> & _).
  split; [|apply strip_trimmed].
  intros E. rewrite E in Hne. discriminate.
Qed.

Lemma lstrip_trimmed (s : string) : trimmed s -> lstrip s = s.
Proof.
  intros [Hf _]. destruct s as [|c s]; [reflexivity|].
  cbn. rewrite (Hf c eq_refl). reflexivity.
Qed.

Lemma rstrip_last (s : string) :
  (forall c, last_char s = Some c -> is_space c = false) -> rstrip s = s.
Proof.
  induction s as [|c s IH]; intros Hl; [reflexivity|].
  cbn [rstrip]. rewrite IH.
  - destruct s; [|reflexivity]. rewrite (Hl c eq_refl). reflexivity.
  - intros c' Hc'. apply Hl. cbn [last_char].
    destruct s; [discriminate | exact Hc'].
Qed.

Lemma strip_of_trimmed (s : string) : trimmed s -> strip s = s.
Proof.
  intros H. unfold strip. rewrite lstrip_trimmed by exact H.
  apply rstrip_last, H.
Qed.

Lemma split_lines_single (s : string) : no_newline s -> split_lines s = [s].
Proof.
  induction s as [|c s IH]; intros H; [reflexivity|].
  apply Forall_cons in H as [Hc Hs]. cbn [split_lines].
  destruct (Ascii.eqb c newline) eqn:E;
    [apply Ascii.eqb_eq in E; contradiction|].
  rewrite IH by exact Hs. reflexivity.
Qed.

Lemma clean_text_form (t : string) :
  trimmed (_clean_text t) /\ no_newline (_clean_text t).
Proof.
  rewrite clean_text_lines. split.
  - apply join_space_trimmed, cleaned_lines_trimmed.
  - apply join_space_no_newline, Forall_forall. intros l Hl.
    apply list_elem_of_filter in Hl as [_ Hl].
    apply list_elem_of_fmap in Hl as (l0 & -> & Hl0).
    apply strip_no_newline.
    pose proof (split_lines_no_newline t) as H.
    eapply Forall_forall in H; eauto.
Qed.

(** X17: the cleaned text is one line with no whitespace at either end: it
    contains no newline and neither starts nor ends with a whitespace
    character. *)
Theorem X17_clean_text_one_trimmed_line (t : string) :
  trimmed (_clean_text t) /\ no_newline (_clean_text t).
Proof. apply clean_text_form. Qed.

(** X18: cleaning is idempotent: cleaning a cleaned text changes
    nothing. *)
Theorem X18_clean_text_idempotent (t : string) :
  _clean_text (_clean_text t) = _clean_text t.
Proof.
  destruct (clean_text_form t) as [Ht Hn].
  set (out := _clean_text t) in *.
  rewrite clean_text_lines, split_lines_single by exact Hn.
  cbn [fmap list_fmap]. rewrite strip_of_trimmed by exact Ht.
  rewrite filter_cons. case_decide as Hne; [reflexivity|].
  destruct out; [reflexivity | cbn in Hne; congruence].
Qed.

(** ** The Pages the extractor emits *)

Lemma has_text_visible (s : string) : has_text s = true <-> visible s <> [].
Proof.
  unfold has_text. rewrite negb_true_iff, <- visible_all_space.
  destruct (all_space s); split; congruence.
Qed.

Lemma page_of_wellformed (name : string) (i : nat) (extracted : option string)
    (p : page_data) :
  page_of name i extracted = Some p ->
  pdf_name p = name /\ has_text (text p) = true /\ page p = Z.of_nat i + 1.
Proof.
  unfold page_of. destruct extracted as [raw|]; [|discriminate].
  destruct (has_text raw) eqn:E; [|discriminate]. intros [= <-]. cbn.
  split; [reflexivity|]. split; [|reflexivity].
  rewrite <- clean_text_lines. apply has_text_visible.
  rewrite clean_text_visible. apply has_text_visible. exact E.
Qed.

Lemma pages_from (name : string) (pages : list (option string)) :
  forall n : nat,
    Forall (fun p => pdf_name p = name /\ has_text (text p) = true /\
                     Z.of_nat n < page p <= Z.of_nat (n + length pages))
           (omap id (imap (fun j => page_of name (n + j)) pages)) /\
    StronglySorted Z.lt
      (page <$> omap id (imap (fun j => page_of name (n + j)) pages)) /\
    (length (omap id (imap (fun j => page_of name (n + j)) pages))
     <= length pages)%nat.
Proof.
  induction pages as [|extracted rest IH]; intros n.
  - cbn. repeat split; constructor.
  - assert (imap (fun j => page_of name (n + j)) (extracted :: rest)
            = page_of name n extracted
              :: imap (fun j => page_of name (S n + j)) rest) as ->.
    { rewrite imap_cons, Nat.add_0_r. f_equal.
      apply imap_ext. intros j x _. cbn. f_equal. lia. }
    destruct (IH (S n)) as (Hall & Hsorted & Hlen).
    assert (Forall (fun p => pdf_name p = name /\ has_text (text p) = true /\
                             Z.of_nat n < page p
                             <= Z.of_nat (n + length (extracted :: rest)))
              (omap id (imap (fun j => page_of name (S n + j)) rest))) as Hall'.
    { eapply Forall_impl; [exact Hall|]. cbn [length].
      intros p (? & ? & ?). repeat split; try assumption; lia. }
    cbn [omap list_omap length].
    destruct (page_of name n extracted) as [p|] eqn:Ep; cbn [id].
    + apply page_of_wellformed in Ep as (Hname & Htext & Hpage).
      split; [|split].
      * constructor; [|exact Hall'].
        repeat split; try assumption; cbn [length]; lia.
      * cbn [fmap list_fmap]. constructor; [exact Hsorted|].
        apply Forall_fmap. eapply Forall_impl; [exact Hall|].
        intros p' (_ & _ & Hp'). cbn. lia.
      * cbn [length]. lia.
    + split; [exact Hall'|]. split; [exact Hsorted | lia].
Qed.

(** X19: every Page the extractor emits carries the name of the document, a
    text that contains a non-whitespace character, and a page number
    between 1 and the number of physical pages; the page numbers are
    strictly increasing, so no page is emitted twice, and there are never
    more Pages than physical pages. *)
Theorem X19_extracted_pages_wellformed
    (name : string) (pages : list (option string)) :
  Forall (fun p => pdf_name p = name /\ has_text (text p) = true /\
                   1 <= page p <= Z.of_nat (length pages))
         (extract_text_from_pdf name pages) /\
  StronglySorted Z.lt (page <$> extract_text_from_pdf name pages) /\
  (length (extract_text_from_pdf name pages) <= length pages)%nat.
Proof.
  unfold extract_text_from_pdf. change 0 with (Z.of_nat 0).
  rewrite extract_loop_pages. cbn [app].
  destruct (pages_from name pages 0) as (Hall & Hsorted & Hlen).
  split; [|split; assumption].
  eapply Forall_impl; [exact Hall|].
  intros p (? & ? & ?). repeat split; try assumption; lia.
Qed.

(** ** What the chunker puts in a chunk *)

Lemma append_chunks_imap (chunks : list string) (page_num : Z) (name : string) :
  forall (all_chunks : list dict) (n : nat),
    append_chunks chunks page_num name all_chunks (Z.of_nat n)
    = (all_chunks
         ++ imap (fun j t => chunk_dict t page_num (Z.of_nat (n + j)) name)
                 chunks,
       Z.of_nat (n + length chunks)).
Proof.
  induction chunks as [|c chunks IH]; intros acc n.
  - cbn. rewrite app_nil_r, Nat.add_0_r. reflexivity.
  - cbn [append_chunks].
    replace (Z.of_nat n + 1) with (Z.of_nat (S n)) by lia.
    rewrite IH, imap_cons, Nat.add_0_r, <- app_assoc. cbn [length app].
    f_equal; [|f_equal; lia]. f_equal. f_equal.
    apply imap_ext. intros j t _. cbn. f_equal. lia.
Qed.

Lemma chunk_loop_imap (split_text : string -> list string)
    (pages_data : list page_data) :
  forall (all_chunks : list dict) (n : nat),
    chunk_loop split_text pages_data all_chunks (Z.of_nat n)
    = all_chunks
        ++ imap (fun j => chunk_at (n + j)) (pieces split_text pages_data).
Proof.
  induction pages_data as [|pd rest IH]; intros acc n.
  - cbn. rewrite app_nil_r. reflexivity.
  - cbn [chunk_loop]. unfold pieces. rewrite filter_cons.
    destruct (nonempty (strip (text pd))) eqn:E.
    + rewrite decide_True by reflexivity.
      rewrite append_chunks_imap, IH. cbn [fmap list_fmap concat].
      fold (pieces split_text rest).
      rewrite imap_app, imap_fmap, length_fmap, <- app_assoc.
      f_equal. f_equal.
      apply imap_ext. intros j x _. cbn. unfold chunk_at. cbn.
      f_equal. lia.
    + rewrite decide_False by discriminate. apply IH.
Qed.

(** X20: the chunks are, in page order, one per piece the splitter cuts out
    of each page whose text is not blank; a chunk carries the text of its
    piece, the page number and the document name of the page the piece came
    from, and its position as [chunk_id]. A blank page yields no chunk. *)
Theorem X20_chunks_follow_pieces
    (split_text : string -> list string) (pages_data : list page_data) :
  _chunk_pages_simple split_text pages_data
  = imap chunk_at (pieces split_text pages_data).
Proof.
  unfold _chunk_pages_simple. change 0 with (Z.of_nat 0).
  rewrite chunk_loop_imap. reflexivity.
Qed.

Lemma chunk_text_of_chunk_dict (t : string) (pg id : Z) (name : string) :
  chunk_text_of (chunk_dict t pg id name) = t.
Proof. reflexivity. Qed.

Lemma chunk_dict_pdf_name (t : string) (pg id : Z) (name : string) :
  chunk_dict t pg id name !! "pdf_name" = Some (VStr name).
Proof. reflexivity. Qed.

Lemma extracted_pages_not_blank (name : string) (pages : list (option string)) :
  Forall (fun p => pdf_name p = name /\ nonempty (strip (text p)) = true)
         (extract_text_from_pdf name pages).
Proof.
  unfold extract_text_from_pdf. change 0 with (Z.of_nat 0).
  rewrite extract_loop_pages. cbn [app].
  destruct (pages_from name pages 0) as (Hall & _).
  eapply Forall_impl; [exact Hall|].
  intros p (Hn & Ht & _). rewrite strip_nonempty. auto.
Qed.

Lemma filter_all {A} (P : A -> Prop) `{!forall x, Decision (P x)} (l : list A) :
  Forall P l -> filter P l = l.
Proof.
  induction 1 as [|x l Hx Hl IH]; [reflexivity|].
  rewrite filter_cons, decide_True by exact Hx. rewrite IH. reflexivity.
Qed.

Lemma elem_of_concat {A} (x : A) (ls : list (list A)) :
  x ∈ concat ls -> exists l, x ∈ l /\ l ∈ ls.
Proof.
  induction ls as [|l ls IH]; cbn; [intros H; inversion H|].
  intros H. apply elem_of_app in H as [H|H].
  - exists l. split; [exact H | apply list_elem_of_here].
  - destruct (IH H) as (l' & ? & ?). exists l'.
    split; [assumption | apply list_elem_of_further; assumption].
Qed.

Lemma extracted_pages_all_chunked
    (split_text : string -> list string) (name : string)
    (pages : list (option string)) :
  chunk_text_of
    <$> _chunk_pages_simple split_text (extract_text_from_pdf name pages)
  = concat ((fun p => split_text (text p))
              <$> extract_text_from_pdf name pages) /\
  Forall (fun c : dict => c !! "pdf_name" = Some (VStr name))
         (_chunk_pages_simple split_text (extract_text_from_pdf name pages)).
Proof.
  pose proof (extracted_pages_not_blank name pages) as Hx.
  set (pds := extract_text_from_pdf name pages) in *.
  unfold _chunk_pages_simple. change 0 with (Z.of_nat 0).
  rewrite chunk_loop_imap. cbn [app]. unfold pieces.
  rewrite (filter_all (fun pd => nonempty (strip (text pd)) = true) pds)
    by (eapply Forall_impl; [exact Hx | intros p [_ H]; exact H]).
  split.
  - rewrite fmap_imap.
    rewrite (imap_ext _ (const (snd : page_data * string -> string)))
      by (intros i [pd t] _; reflexivity).
    rewrite imap_const.
    clear Hx. induction pds as [|pd pds IH]; [reflexivity|].
    cbn [fmap list_fmap concat]. rewrite fmap_app, IH. f_equal.
    rewrite <- list_fmap_compose. cbn. apply list_fmap_id.
  - apply Forall_forall. intros c Hc.
    apply elem_of_lookup_imap in Hc as (i & [pd t] & -> & Hi).
    unfold chunk_at. cbn. rewrite chunk_dict_pdf_name.
    apply list_elem_of_lookup_2 in Hi.
    apply elem_of_concat in Hi as (l & Ht & Hl).
    apply list_elem_of_fmap in Hl as (pd' & -> & Hpd').
    apply list_elem_of_fmap in Ht as (t' & [= -> ->] & _).
    eapply Forall_forall in Hx; [|exact Hpd'].
    destruct Hx as [-> _]. reflexivity.
Qed.

(** X21: extractor and chunker fit: no Page the extractor emits is skipped
    by the chunker as blank. The chunk texts of a document are exactly the
    pieces of all its extracted Pages, in order, and every chunk carries the
    name of the document. *)
Theorem X21_every_extracted_page_is_chunked
    (split_text : string -> list string) (name : string)
    (pages : list (option string)) :
  chunk_text_of
    <$> _chunk_pages_simple split_text (extract_text_from_pdf name pages)
  = concat ((fun p => split_text (text p))
              <$> extract_text_from_pdf name pages) /\
  Forall (fun c : dict => c !! "pdf_name" = Some (VStr name))
         (_chunk_pages_simple split_text (extract_text_from_pdf name pages)).
Proof. apply extracted_pages_all_chunked. Qed.

(** ** Ingestion *)

Lemma upload_pdf_run
    (split_text : string -> list string)
    (generate_embeddings : list string -> ndarray)
    (filename : string) (pages : list (option string)) (st : store) :
  upload_pdf split_text generate_embeddings filename pages st
  = if negb (endswith (lower filename) ".pdf") then (Raise (HTTPException 400), st)
    else
      match extract_text_from_pdf filename pages with
      | [] => (Raise (HTTPException 400), st)
      | pages_data =>
          let chunks := _chunk_pages_simple split_text pages_data in
          let st' := after (add_to_index
                              (generate_embeddings (chunk_text_of <$> chunks))
                              chunks) st in
          match outcome (add_to_index
                           (generate_embeddings (chunk_text_of <$> chunks))
                           chunks) st with
          | Ok _ => (Ok (length pages_data, length chunks, index_size_of st'), st')
          | Raise _ => (Raise (HTTPException 500), st')
          end
      end.
Proof.
  unfold upload_pdf. destruct (negb _); [reflexivity|].
  destruct (extract_text_from_pdf filename pages) as [|pd pds] eqn:Ex;
    [reflexivity|].
  cbv zeta. unfold outcome, after.
  change (map chunk_text_of) with (fmap (M := list) chunk_text_of).
  set (chunks := _chunk_pages_simple split_text (pd :: pds)).
  set (emb := generate_embeddings (chunk_text_of <$> chunks)).
  pose proof (add_to_index_loaded emb chunks st) as Hl. unfold after in Hl.
  unfold mbind at 1. unfold M_bind.
  destruct (add_to_index emb chunks st) as [[[]|e] st'] eqn:Ea; cbn in *.
  - rewrite get_index_size_run, Hl. reflexivity.
  - reflexivity.
Qed.

(** X22: an upload that raises leaves the index as it was. It raises with
    status 400 exactly when the file name does not end in [.pdf] (in any
    letter case) or no page has text, and then the store is untouched; the
    only other exception is status 500, and then [get_index_size], the
    metadata log and both files are as before. *)
Theorem X22_failed_upload_leaves_index
    (split_text : string -> list string)
    (generate_embeddings : list string -> ndarray)
    (filename : string) (pages : list (option string)) (st : store)
    (e : exn) :
  outcome (upload_pdf split_text generate_embeddings filename pages) st
  = Raise e ->
  (e = HTTPException 400 /\
   (endswith (lower filename) ".pdf" = false \/
    extract_text_from_pdf filename pages = []) /\
   after (upload_pdf split_text generate_embeddings filename pages) st = st)
  \/
  (e = HTTPException 500 /\
   endswith (lower filename) ".pdf" = true /\
   extract_text_from_pdf filename pages <> [] /\
   after (upload_pdf split_text generate_embeddings filename pages) st
   = after _ensure_loaded st).
Proof.
  unfold outcome, after. rewrite upload_pdf_run, ensure_loaded_run.
  destruct (endswith (lower filename) ".pdf") eqn:En; cbn [negb].
  2: { cbn. intros [= <-]. left. auto. }
  destruct (extract_text_from_pdf filename pages) as [|pd pds] eqn:Ex.
  { cbn. intros [= <-]. left. auto. }
  cbv zeta.
  set (chunks := _chunk_pages_simple split_text (pd :: pds)).
  set (emb := generate_embeddings (chunk_text_of <$> chunks)).
  unfold outcome, after. rewrite add_to_index_run.
  destruct (_index (loaded st)) as [ix|]; cbn.
  - case_decide; cbn; [discriminate|]. intros [= <-]. right.
    repeat split; [discriminate].
  - discriminate.
Qed.

Lemma X22_failed_upload_leaves_index_witness :
  after (upload_pdf whole_page flat_embeddings "notes.txt" [Some "alpha"])
    two_passages = two_passages.
Proof.
  destruct (X22_failed_upload_leaves_index whole_page flat_embeddings
              "notes.txt" [Some "alpha"] two_passages (HTTPException 400)
              eq_refl) as [(_ & _ & H)|(H & _)].
  - exact H.
  - discriminate H.
Defined.



(** ** Merging paragraphs *)

Lemma append_assoc (a b c : string) : (a +:+ b) +:+ c = a +:+ b +:+ c.
Proof.
  induction a as [|x a IH]; [reflexivity|].
  rewrite !append_String, IH. reflexivity.
Qed.

Lemma join_cons_nonempty (sep x : string) (l : list string) :
  l <> [] -> join sep (x :: l) = x +:+ sep +:+ join sep l.
Proof. destruct l; [congruence | reflexivity]. Qed.

Lemma join_merged_pair (sep a b : string) (l : list string) :
  join sep ((a +:+ sep +:+ b) :: l) = join sep (a :: b :: l).
Proof.
  rewrite (join_cons_nonempty sep a (b :: l)) by discriminate.
  destruct l as [|c l]; [reflexivity|].
  rewrite !(join_cons_nonempty sep _ (c :: l)) by discriminate.
  rewrite !append_assoc. reflexivity.
Qed.

Lemma join_app_cong (sep : string) (m l1 l2 : list string) :
  l1 <> [] -> l2 <> [] -> join sep l1 = join sep l2 ->
  join sep (m ++ l1) = join sep (m ++ l2).
Proof.
  intros H1 H2 E. induction m as [|x m IH]; [exact E|].
  cbn [app]. rewrite !join_cons_nonempty, IH; [reflexivity| |];
    intros H; apply app_eq_nil in H as [_ H]; contradiction.
Qed.

Section MergeProperties.

Variable judge : string -> string -> bool.
Variable max_chunk_size : Z.

Lemma merge_loop_join (rest : list string) :
  forall (merged : list string) (current : string),
    join blank_line
      ((merge_loop judge max_chunk_size rest merged current).1
         ++ [(merge_loop judge max_chunk_size rest merged current).2])
    = join blank_line (merged ++ current :: rest).
Proof.
  induction rest as [|next rest IH]; intros merged current; [reflexivity|].
  cbn [merge_loop].
  destruct (_ >? _).
  { rewrite IH, <- app_assoc. reflexivity. }
  destruct (judge current next).
  - rewrite IH. apply join_app_cong; [discriminate | discriminate |].
    apply join_merged_pair.
  - rewrite IH, <- app_assoc. reflexivity.
Qed.

Lemma merge_loop_current_nonempty (rest : list string) :
  forall (merged : list string) (current : string),
    current <> EmptyString ->
    Forall (fun p => p <> EmptyString) rest ->
    (merge_loop judge max_chunk_size rest merged current).2 <> EmptyString.
Proof.
  induction rest as [|next rest IH]; intros merged current Hc Hr; [exact Hc|].
  apply Forall_cons in Hr as [Hn Hr]. cbn [merge_loop].
  destruct (_ >? _); [apply IH; assumption|].
  destruct (judge current next); [|apply IH; assumption].
  apply IH; [|exact Hr]. destruct current; [congruence | discriminate].
Qed.

Lemma merge_loop_Forall (P : string -> Prop) (rest : list string) :
  (forall s, Z.of_nat (String.length s) <= max_chunk_size -> P s) ->
  forall (merged : list string) (current : string),
    Forall P merged -> P current -> Forall P rest ->
    Forall P (merge_loop judge max_chunk_size rest merged current).1 /\
    P (merge_loop judge max_chunk_size rest merged current).2.
Proof.
  intros Hsmall.
  induction rest as [|next rest IH]; intros merged current Hm Hc Hr;
    [split; assumption|].
  apply Forall_cons in Hr as [Hn Hr]. cbn [merge_loop].
  destruct (_ >? _) eqn:E.
  { apply IH; [apply Forall_app; split; [exact Hm | repeat constructor; exact Hc]
              | exact Hn | exact Hr]. }
  destruct (judge current next).
  - apply IH; [exact Hm | | exact Hr]. apply Hsmall. lia.
  - apply IH; [apply Forall_app; split; [exact Hm | repeat constructor; exact Hc]
              | exact Hn | exact Hr].
Qed.

Lemma merge_loop_unmerged (rest : list string) :
  (forall a b, judge a b = false) ->
  forall (merged : list string) (current : string),
    (merge_loop judge max_chunk_size rest merged current).1
      ++ [(merge_loop judge max_chunk_size rest merged current).2]
    = merged ++ current :: rest.
Proof.
  intros Hno.
  induction rest as [|next rest IH]; intros merged current; [reflexivity|].
  cbn [merge_loop]. rewrite Hno.
  destruct (_ >? _); rewrite IH, <- app_assoc; reflexivity.
Qed.

End MergeProperties.

(** X24: merging loses no text and adds none: when no paragraph is empty,
    the merged chunks joined by blank lines are the paragraphs joined by
    blank lines, whatever the judge answers and whatever the budget. *)
Theorem X24_merge_keeps_text
    (judge : string -> string -> bool) (paragraphs : list string) (max : Z) :
  Forall (fun p => p <> EmptyString) paragraphs ->
  join blank_line (merge_related_paragraphs judge paragraphs max)
  = join blank_line paragraphs.
Proof.
  intros Hne. unfold merge_related_paragraphs.
  destruct paragraphs as [|first [|second rest]]; [reflexivity..|].
  apply Forall_cons in Hne as [Hf Hr].
  pose proof (merge_loop_join judge max (second :: rest) [] first) as Hj.
  pose proof (merge_loop_current_nonempty judge max (second :: rest) [] first
                Hf Hr) as Hc.
  destruct (merge_loop judge max (second :: rest) [] first) as [merged current].
  cbn [fst snd] in *.
  destruct current; [congruence|]. exact Hj.
Qed.

Lemma X24_merge_keeps_text_witness :
  join blank_line
    (merge_related_paragraphs (fun _ _ => true)
       ["Leaves"; "make"; "food"] 14)
  = join blank_line ["Leaves"; "make"; "food"].
Proof.
  apply X24_merge_keeps_text. repeat constructor; discriminate.
Defined.

(** X25: merging never goes over the budget: every chunk returned is one of
    the paragraphs as it came in, or is at most [max_chunk_size] characters
    long. *)
Theorem X25_merge_within_budget
    (judge : string -> string -> bool) (paragraphs : list string) (max : Z) :
  Forall (fun c => c ∈ paragraphs \/ Z.of_nat (String.length c) <= max)
         (merge_related_paragraphs judge paragraphs max).
Proof.
  unfold merge_related_paragraphs.
  destruct paragraphs as [|first [|second rest]].
  - constructor.
  - constructor; [|constructor]. left. apply list_elem_of_here.
  - set (ps := first :: second :: rest).
    destruct (merge_loop_Forall judge max
                (fun c => c ∈ ps \/ Z.of_nat (String.length c) <= max)
                (second :: rest) (fun s Hs => or_intror Hs) [] first)
      as [Hm Hc].
    + constructor.
    + left. apply list_elem_of_here.
    + apply Forall_forall. intros p Hp. left.
      apply list_elem_of_further. exact Hp.
    + destruct (merge_loop judge max (second :: rest) [] first)
        as [merged current]. cbn [fst snd] in *.
      destruct (nonempty current); [|exact Hm].
      apply Forall_app. split; [exact Hm|].
      constructor; [exact Hc | constructor].
Qed.

(** X26: the merger fails safe: when the judge says no to every pair (as it
    does whenever the call to it fails), the paragraphs come back as they
    are, none merged, provided none is empty. *)
Theorem X26_merge_fail_safe
    (judge : string -> string -> bool) (paragraphs : list string) (max : Z) :
  (forall a b, judge a b = false) ->
  Forall (fun p => p <> EmptyString) paragraphs ->
  merge_related_paragraphs judge paragraphs max = paragraphs.
Proof.
  intros Hno Hne. unfold merge_related_paragraphs.
  destruct paragraphs as [|first [|second rest]]; [reflexivity..|].
  pose proof (merge_loop_unmerged judge max (second :: rest) Hno [] first) as Hu.
  apply Forall_cons in Hne as [Hf Hr].
  pose proof (merge_loop_current_nonempty judge max (second :: rest) [] first
                Hf Hr) as Hc.
  destruct (merge_loop judge max (second :: rest) [] first) as [merged current].
  cbn [fst snd app] in *.
  destruct current; [congruence|]. exact Hu.
Qed.

Lemma X26_merge_fail_safe_witness :
  merge_related_paragraphs (fun _ _ => false) ["Leaves"; "make"; "food"] 1200
  = ["Leaves"; "make"; "food"].
Proof.
  apply X26_merge_fail_safe; [reflexivity|].
  repeat constructor; discriminate.
Defined.

(** ** Headings and paragraphs *)

Lemma visible_join_sep (sep : string) (ls : list string) :
  all_space sep = true ->
  visible (join sep ls) = concat (visible <$> ls).
Proof.
  intros Hsep. apply visible_all_space in Hsep.
  induction ls as [|x [|y tl] IH]; [reflexivity| |].
  - cbn. rewrite app_nil_r. reflexivity.
  - rewrite join_cons_nonempty by discriminate.
    rewrite !visible_append, Hsep, IH. reflexivity.
Qed.

Lemma closed_text_visible (current_para : list string) :
  visible (strip (join line_break current_para))
  = concat (visible <$> current_para).
Proof. rewrite visible_strip. apply visible_join_sep. reflexivity. Qed.

Lemma shown_app (a b : list (string * bool)) : shown (a ++ b) = shown a ++ shown b.
Proof. unfold shown. rewrite fmap_app. apply concat_app. Qed.

Lemma close_paragraph_cases (ps : list (string * bool)) (cp : list string) :
  close_paragraph ps cp = ps \/
  (cp <> [] /\ nonempty (strip (join line_break cp)) = true /\
   close_paragraph ps cp = ps ++ [(strip (join line_break cp), false)]).
Proof.
  unfold close_paragraph. destruct cp as [|l cp]; [left; reflexivity|].
  cbv zeta. destruct (nonempty _) eqn:E; [right | left; reflexivity].
  split; [discriminate|]. split; reflexivity.
Qed.

Lemma close_paragraph_shown (ps : list (string * bool)) (cp : list string) :
  shown (close_paragraph ps cp) = shown ps ++ concat (visible <$> cp).
Proof.
  unfold close_paragraph. destruct cp as [|l cp].
  { cbn. rewrite app_nil_r. reflexivity. }
  cbv zeta. pose proof (closed_text_visible (l :: cp)) as Hv.
  destruct (nonempty _) eqn:E.
  - rewrite shown_app. unfold shown at 2. cbn [fmap list_fmap concat fst].
    rewrite app_nil_r, Hv. reflexivity.
  - rewrite <- Hv.
    destruct (strip (join line_break (l :: cp))); [|discriminate].
    cbn. rewrite app_nil_r. reflexivity.
Qed.

Lemma blank_line_visible (line : string) :
  nonempty (strip line) = false -> visible line = [].
Proof.
  intros H. rewrite <- visible_strip.
  destruct (strip line); [reflexivity | discriminate].
Qed.

Lemma heading_loop_shown (lines : list string) :
  forall (ps : list (string * bool)) (cp : list string),
    shown (close_paragraph (heading_loop lines ps cp).1
                           (heading_loop lines ps cp).2)
    = shown ps ++ concat (visible <$> cp) ++ concat (visible <$> lines).
Proof.
  induction lines as [|line rest IH]; intros ps cp.
  - cbn. rewrite app_nil_r. apply close_paragraph_shown.
  - cbn [heading_loop fmap list_fmap concat]. cbv zeta.
    destruct (nonempty (strip line)) eqn:E; cbn [negb].
    + destruct (looks_like_heading (strip line) && _).
      * rewrite IH, shown_app, close_paragraph_shown.
        unfold shown at 2. cbn [fmap list_fmap concat fst].
        rewrite visible_strip, !app_nil_r. cbn [app].
        rewrite <- !app_assoc. reflexivity.
      * rewrite IH, fmap_app, concat_app. cbn [fmap list_fmap concat].
        rewrite app_nil_r, <- !app_assoc. reflexivity.
    + rewrite IH, close_paragraph_shown, (blank_line_visible line E).
      cbn [fmap list_fmap concat app]. rewrite <- app_assoc. reflexivity.
Qed.

(** X27: [detect_headings] loses no text: the non-whitespace characters of
    its entries, taken in order, are those of the text it was given. *)
Theorem X27_detect_headings_keeps_characters (t : string) :
  shown (detect_headings t) = visible t.
Proof.
  unfold detect_headings.
  pose proof (heading_loop_shown (split_lines t) [] []) as H.
  destruct (heading_loop (split_lines t) [] []) as [ps cp].
  cbn [fst snd] in H. rewrite H. cbn [shown fmap list_fmap concat app].
  apply visible_split_lines.
Qed.

Lemma nonempty_true (s : string) : nonempty s = true -> s <> EmptyString.
Proof. intros H E. rewrite E in H. discriminate. Qed.

Lemma close_paragraph_wellformed (ps : list (string * bool)) (cp : list string) :
  Forall entry_wellformed ps -> Forall entry_wellformed (close_paragraph ps cp).
Proof.
  intros Hps.
  destruct (close_paragraph_cases ps cp) as [->|(_ & Hne & ->)]; [exact Hps|].
  apply Forall_app. split; [exact Hps|]. constructor; [|constructor].
  split; [apply nonempty_true, Hne|]. split; [apply strip_trimmed|].
  discriminate.
Qed.

Lemma heading_loop_wellformed (lines : list string) :
  Forall no_newline lines ->
  forall (ps : list (string * bool)) (cp : list string),
    Forall entry_wellformed ps ->
    Forall entry_wellformed (heading_loop lines ps cp).1.
Proof.
  induction 1 as [|line rest Hline Hrest IH]; intros ps cp Hps; [exact Hps|].
  cbn [heading_loop]. cbv zeta.
  destruct (nonempty (strip line)) eqn:E; cbn [negb].
  - destruct (looks_like_heading (strip line) && _); [|apply IH, Hps].
    apply IH, Forall_app. split; [apply close_paragraph_wellformed, Hps|].
    constructor; [|constructor].
    split; [apply nonempty_true, E|]. split; [apply strip_trimmed|].
    intros _. apply strip_no_newline, Hline.
  - apply IH, close_paragraph_wellformed, Hps.
Qed.

(** X28: no entry of [detect_headings] is empty or has whitespace at either
    end, and an entry marked as a heading is a single line. *)
Theorem X28_detect_headings_entries (t : string) :
  Forall (fun e : string * bool =>
            e.1 <> EmptyString /\ trimmed e.1 /\
            (e.2 = true -> no_newline e.1))
         (detect_headings t).
Proof.
  unfold detect_headings.
  pose proof (heading_loop_wellformed (split_lines t)
                (split_lines_no_newline t) [] [] (Forall_nil_2 _)) as H.
  destruct (heading_loop (split_lines t) [] []) as [ps cp].
  apply close_paragraph_wellformed. exact H.
Qed.

Lemma headings_placed_snoc_paragraph (ps : list (string * bool)) (p : string) :
  headings_placed ps -> headings_placed (ps ++ [(p, false)]).
Proof.
  intros Hps i t Hi.
  destruct (decide (i < length ps)%nat) as [Hlt|Hge].
  - rewrite lookup_app_l in Hi by exact Hlt.
    destruct (Hps i t Hi) as (j & t' & -> & Hj).
    exists j, t'. split; [reflexivity|].
    rewrite lookup_app_l by lia. exact Hj.
  - rewrite lookup_app_r in Hi by lia.
    destruct (i - length ps)%nat as [|k]; cbn in Hi; [discriminate|].
    destruct k; discriminate.
Qed.

Lemma headings_placed_snoc_heading (ps : list (string * bool)) (p h : string) :
  headings_placed ps -> headings_placed ((ps ++ [(p, false)]) ++ [(h, true)]).
Proof.
  intros Hps i t Hi.
  apply headings_placed_snoc_paragraph with (p := p) in Hps.
  destruct (decide (i < length (ps ++ [(p, false)]))%nat) as [Hlt|Hge].
  - rewrite lookup_app_l in Hi by exact Hlt.
    destruct (Hps i t Hi) as (j & t' & -> & Hj).
    exists j, t'. split; [reflexivity|].
    rewrite lookup_app_l by lia. exact Hj.
  - rewrite lookup_app_r in Hi by lia.
    rewrite length_app in *. cbn [length] in *.
    destruct (i - (length ps + 1))%nat as [|k] eqn:Ek; cbn in Hi;
      [|destruct k; discriminate].
    exists (length ps), p. split; [lia|].
    rewrite lookup_app_l by (rewrite length_app; cbn; lia).
    rewrite lookup_app_r by lia. rewrite Nat.sub_diag. reflexivity.
Qed.

Lemma close_paragraph_placed (ps : list (string * bool)) (cp : list string) :
  headings_placed ps -> headings_placed (close_paragraph ps cp).
Proof.
  intros Hps.
  destruct (close_paragraph_cases ps cp) as [->|(_ & _ & ->)]; [exact Hps|].
  apply headings_placed_snoc_paragraph, Hps.
Qed.

Lemma close_paragraph_appends (ps : list (string * bool)) (cp : list string) :
  cp <> [] -> Forall (fun l => has_text l = true) cp ->
  close_paragraph ps cp = ps ++ [(strip (join line_break cp), false)].
Proof.
  intros Hne Hall. unfold close_paragraph.
  destruct cp as [|l cp]; [congruence|]. cbv zeta.
  assert (nonempty (strip (join line_break (l :: cp))) = true) as ->;
    [|reflexivity].
  rewrite strip_nonempty. apply has_text_visible.
  rewrite visible_join_sep by reflexivity. cbn [fmap list_fmap concat].
  apply Forall_cons in Hall as [Hl _]. apply has_text_visible in Hl.
  destruct (visible l); [congruence | discriminate].
Qed.

Lemma heading_loop_placed (lines : list string) :
  forall (ps : list (string * bool)) (cp : list string),
    headings_placed ps -> Forall (fun l => has_text l = true) cp ->
    headings_placed (heading_loop lines ps cp).1.
Proof.
  induction lines as [|line rest IH]; intros ps cp Hps Hcp; [exact Hps|].
  cbn [heading_loop]. cbv zeta.
  destruct (nonempty (strip line)) eqn:E; cbn [negb].
  - destruct (looks_like_heading (strip line)); cbn [andb].
    + case_bool_decide as Hcp'; cbn [negb].
      * apply IH; [exact Hps|]. subst cp. repeat constructor.
        rewrite <- strip_nonempty. exact E.
      * apply IH; [|constructor].
        rewrite close_paragraph_appends by assumption.
        apply headings_placed_snoc_heading, Hps.
    + apply IH; [exact Hps|]. apply Forall_app. split; [exact Hcp|].
      repeat constructor. rewrite <- strip_nonempty. exact E.
  - apply IH; [|constructor]. apply close_paragraph_placed, Hps.
Qed.

(** X29: [detect_headings] marks a line as a heading only when it closes a
    running paragraph: every heading comes directly after an entry that is
    not a heading. In particular a text never starts with a heading entry
    and no two heading entries are adjacent, however heading-like the lines
    are. *)
Theorem X29_headings_follow_paragraphs (t : string) :
  headings_placed (detect_headings t).
Proof.
  unfold detect_headings.
  assert (headings_placed []) as H0 by (intros i t' Hi; discriminate).
  pose proof (heading_loop_placed (split_lines t) [] [] H0 (Forall_nil_2 _)) as H.
  destruct (heading_loop (split_lines t) [] []) as [ps cp].
  apply close_paragraph_placed. exact H.
Qed.

(** ** The two chunking modes *)

Lemma agentic_loop_simple (judge : string -> string -> bool)
    (pages_data : list page_data) :
  forall (all_chunks : list dict) (id : Z),
    agentic_loop judge pages_data all_chunks id
    = chunk_loop
        (fun t => merge_related_paragraphs judge
                    (para_texts (detect_headings t)) MAX_CHUNK_SIZE)
        pages_data all_chunks id.
Proof.
  induction pages_data as [|pd rest IH]; intros acc id; [reflexivity|].
  cbn [agentic_loop chunk_loop]. cbv zeta.
  destruct (nonempty (strip (text pd))); [|apply IH].
  destruct (para_texts (detect_headings (text pd))) as [|p ps] eqn:E.
  - cbn. apply IH.
  - destruct (append_chunks _ _ _ acc id) as [acc' id']. apply IH.
Qed.

(** X30: the agentic mode is the rule-based loop with another cutter: it
    yields what [_chunk_pages_simple] yields when the splitter is "detect
    headings, mark them, merge". So both modes of [chunk_pages] give chunks
    of the same shape, numbered 0, 1, 2, ... in order. *)
Theorem X30_both_modes_same_shape
    (judge : string -> string -> bool) (enable_agentic : bool)
    (split_text : string -> list string) (pages_data : list page_data) :
  _chunk_pages_agentic judge pages_data
  = _chunk_pages_simple
      (fun t => merge_related_paragraphs judge
                  (para_texts (detect_headings t)) MAX_CHUNK_SIZE)
      pages_data /\
  chunk_ids (chunk_pages judge enable_agentic split_text pages_data)
  = ids_from_zero
      (length (chunk_pages judge enable_agentic split_text pages_data)).
Proof.
  assert (_chunk_pages_agentic judge pages_data
          = _chunk_pages_simple
              (fun t => merge_related_paragraphs judge
                          (para_texts (detect_headings t)) MAX_CHUNK_SIZE)
              pages_data) as Hsame by apply agentic_loop_simple.
  split; [exact Hsame|].
  unfold chunk_pages. destruct enable_agentic.
  - rewrite Hsame. apply chunk_loop_numbered. split; reflexivity.
  - apply chunk_loop_numbered. split; reflexivity.
Qed.
